(** * vehicle-number-identifier: the upload / notify / await coordination of [src/App.js]

    The React component [App] of [src/App.js] is embedded as a transition
    system.  Its state is the five [useState] cells and the [useRef] cell of
    the source together with the browser around them: the [readyState] of
    the socket, the pending window timers, the uploads in flight, the frames
    handed to the socket and a clock in milliseconds.  Every handler of the
    source is one function on that state, and one task of the event loop is
    one [step].

    What the model fixes about the environment:
    - numbers are binary64 values, kept as the rationals they denote and
      rounded to nearest-even after each operation;
    - [JSON.parse], property access and the string conversion of template
      literals follow ECMAScript; inbound frames are text frames;
    - a timer callback runs when the timer is due: the clock does not advance
      past the deadline of a pending timer;
    - the [readyState] of the socket is written by the browser: before the
      open, error and close events are dispatched and, with no event at all,
      when the closing handshake of an open socket starts; frames are
      delivered to an open socket only, and the handlers of the second effect
      are in place before the first of these events;
    - the component stays mounted, and [console.log] is not recorded;
    - session numbers on uploads, timers and sent frames are ghost labels. *)

From Stdlib Require Import ZArith NArith QArith Qround Qpower Qminmax Qabs.
From Stdlib Require Import Lia Lqa List Sorted String Ascii Bool DecimalString.
Import ListNotations.
Close Scope Q_scope.
Set Warnings "-register-all".

(** ** JavaScript numbers *)

Module Float64.
Local Open Scope string_scope.
Local Open Scope Q_scope.

(** [floor_log2 x] is the binade of a positive rational: the [e] with
    [2^e <= x < 2^(e+1)]. *)
Definition floor_log2 (x : Q) : Z :=
  let k := (Z.log2 (Qnum x) - Z.log2 (Zpos (Qden x)))%Z in
  if Qle_bool (2 ^ k) x then k else (k - 1)%Z.

(** Rounding to the nearest integer, ties to the even one. *)
Definition round_half_even (x : Q) : Z :=
  let f := Qfloor x in
  match Qcompare (x - inject_Z f) (1 # 2) with
  | Lt => f
  | Gt => (f + 1)%Z
  | Eq => if Z.even f then f else (f + 1)%Z
  end.

(** The spacing of binary64 values around [x]: 53 significant bits, and the
    fixed spacing [2^-1074] of the subnormal range. *)
Definition ulp (x : Q) : Q := 2 ^ (Z.max (floor_log2 x) (-1022) - 52).

Definition grid (y : Q) : Q := inject_Z (round_half_even (y / ulp y)) * ulp y.

(** [rnd x] is the binary64 value nearest to the non-negative rational [x]
    (round to nearest, ties to even), as long as the result is below
    [2^1024]; the result is a reduced fraction. *)
Definition rnd (x : Q) : Q := Qred (grid (Qred x)).

(** The arithmetic the component uses on numbers. *)
Definition fdiv (x y : Q) : Q := rnd (x / y).
Definition fmul (x y : Q) : Q := rnd (x * y).

(** [Math.round]: the nearest integer, ties towards +infinity. *)
Definition Math_round (x : Q) : Z := Qfloor (x + (1 # 2)).

(** Number values that [JSON.parse] can produce: finite values with a sign
    (so that [-0] exists) and the two infinities of overflow. *)
Inductive Number : Type :=
| Finite (neg : bool) (q : Q)
| Infinity (neg : bool).

Definition of_Z (z : Z) : Number :=
  Finite (z <? 0)%Z (rnd (inject_Z (Z.abs z))).

(** The Number value of a non-negative rational with a sign. *)
Definition to_Number (neg : bool) (q : Q) : Number :=
  let r := rnd q in
  if Qle_bool (2 ^ 1024) r then Infinity neg else Finite neg r.

(** *** Number::toString, radix 10 *)

Definition floor_log10 (x : Q) : Z :=
  let g := ((floor_log2 x * 30103) / 100000)%Z in
  if Qle_bool (10 ^ (g + 1)) x then (g + 1)%Z
  else if Qle_bool (10 ^ g) x then g else (g - 1)%Z.

Definition Qdist (a b : Q) : Q := Qabs (a - b).

(** The integer [s] of the shortest decimal [s * 10^(n-k)] that reads back
    as [x], tried with [k] digits, then [k+1], ...; among the two candidates
    of one length the one nearer to [x] is taken, the even one on a tie. *)
Fixpoint shortest (fuel : nat) (k : Z) (n : Z) (x : Q) : Z * Z :=
  match fuel with
  | O => (0%Z, k)
  | S fuel' =>
      let scale := 10 ^ (n - k) in
      let lo := Qfloor (x / scale) in
      let hi := (lo + 1)%Z in
      let back c := Qeq_bool (rnd (inject_Z c * scale)) x in
      let nearer :=
        match Qcompare (Qdist (inject_Z lo * scale) x) (Qdist (inject_Z hi * scale) x) with
        | Lt => lo
        | Gt => hi
        | Eq => if Z.even lo then lo else hi
        end in
      match back lo, back hi with
      | true, true => (nearer, k)
      | true, false => (lo, k)
      | false, true => (hi, k)
      | false, false => shortest fuel' (k + 1)%Z n x
      end
  end.

Definition string_of_N (n : N) : string := NilZero.string_of_uint (N.to_uint n).

Fixpoint strip_zeros_rev (s : list ascii) : list ascii :=
  match s with
  | "0"%char :: r => strip_zeros_rev r
  | _ => s
  end.

Definition strip_trailing_zeros (s : string) : string :=
  string_of_list_ascii (rev (strip_zeros_rev (rev (list_ascii_of_string s)))).

Fixpoint zeros (n : nat) : string :=
  match n with
  | O => EmptyString
  | S n' => String "0" (zeros n')
  end.

Definition take (n : nat) (s : string) : string := substring 0 n s.
Definition drop (n : nat) (s : string) : string := substring n (String.length s - n) s.

(** The layout rules of Number::toString for the digits [ds] of [s] and the
    decimal exponent [n] (the value is [0.ds * 10^n]). *)
Definition layout (ds : string) (n : Z) : string :=
  let k := Z.of_nat (String.length ds) in
  if (k <=? n)%Z && (n <=? 21)%Z then
    ds ++ zeros (Z.to_nat (n - k))
  else if (0 <? n)%Z && (n <=? 21)%Z then
    take (Z.to_nat n) ds ++ "." ++ drop (Z.to_nat n) ds
  else if (-6 <? n)%Z && (n <=? 0)%Z then
    "0." ++ zeros (Z.to_nat (- n)) ++ ds
  else
    let e := (n - 1)%Z in
    let sign := if (e <? 0)%Z then "-" else "+" in
    let mant := if (k =? 1)%Z then ds else take 1 ds ++ "." ++ drop 1 ds in
    mant ++ "e" ++ sign ++ string_of_N (Z.to_N (Z.abs e)).

Definition toString_pos (x : Q) : string :=
  let n := (floor_log10 x + 1)%Z in
  let '(s, k) := shortest 17 1 n x in
  let ds := string_of_N (Z.to_N s) in
  let n' := (n - k + Z.of_nat (String.length ds))%Z in
  layout (strip_trailing_zeros ds) n'.

Definition Number_toString (x : Number) : string :=
  match x with
  | Infinity false => "Infinity"
  | Infinity true => "-Infinity"
  | Finite neg q =>
      if Qeq_bool q 0 then "0"
      else (if neg then "-" else "") ++ toString_pos q
  end.

End Float64.

(** ** JavaScript values: [JSON.parse], property access, string conversion

    A JavaScript string is represented by the bytes of its UTF-8 encoding
    (a lone surrogate, which only a [\u] escape can produce, by the
    three-byte form of its code unit). *)

Module JS.
Local Open Scope string_scope.
Import Float64.

Inductive JSValue : Type :=
| JNull
| JBool (b : bool)
| JNum (x : Number)
| JStr (s : string)
| JArr (items : list JSValue)
| JObj (props : list (string * JSValue)).

Definition dquote : ascii := "034"%char.
Definition backslash : ascii := "092"%char.

(** [lit] writes a text with apostrophes where the text has double quotes. *)
Definition lit (s : string) : string :=
  string_of_list_ascii
    (map (fun c => if (c =? "'")%char then dquote else c) (list_ascii_of_string s)).

Definition is_ws (c : ascii) : bool :=
  match nat_of_ascii c with
  | 9 | 10 | 13 | 32 => true
  | _ => false
  end.

Fixpoint skip_ws (s : string) : string :=
  match s with
  | String c r => if is_ws c then skip_ws r else s
  | EmptyString => s
  end.

Definition digit_val (c : ascii) : option N :=
  let n := N_of_ascii c in
  if (48 <=? n)%N && (n <=? 57)%N then Some (n - 48)%N else None.

Definition hex_val (c : ascii) : option N :=
  let n := N_of_ascii c in
  if (48 <=? n)%N && (n <=? 57)%N then Some (n - 48)%N
  else if (97 <=? n)%N && (n <=? 102)%N then Some (n - 87)%N
  else if (65 <=? n)%N && (n <=? 70)%N then Some (n - 55)%N
  else None.

Definition hex4 (a b c d : ascii) : option N :=
  match hex_val a, hex_val b, hex_val c, hex_val d with
  | Some x, Some y, Some z, Some w => Some (((x * 16 + y) * 16 + z) * 16 + w)%N
  | _, _, _, _ => None
  end.

Definition byte (n : N) : ascii := ascii_of_N n.

(** The UTF-8 bytes of a code point (of a code unit, for a lone surrogate). *)
Definition utf8 (cp : N) : string :=
  if (cp <? 128)%N then String (byte cp) EmptyString
  else if (cp <? 2048)%N then
    String (byte (192 + cp / 64)) (String (byte (128 + cp mod 64)) EmptyString)
  else if (cp <? 65536)%N then
    String (byte (224 + cp / 4096))
      (String (byte (128 + (cp / 64) mod 64)) (String (byte (128 + cp mod 64)) EmptyString))
  else
    String (byte (240 + cp / 262144))
      (String (byte (128 + (cp / 4096) mod 64))
         (String (byte (128 + (cp / 64) mod 64)) (String (byte (128 + cp mod 64)) EmptyString))).

Definition is_high (u : N) : bool := (55296 <=? u)%N && (u <=? 56319)%N.
Definition is_low (u : N) : bool := (56320 <=? u)%N && (u <=? 57343)%N.
Definition pair_cp (h l : N) : N := (65536 + (h - 55296) * 1024 + (l - 56320))%N.

Definition simple_escape (e : ascii) : option ascii :=
  match nat_of_ascii e with
  | 34 => Some dquote
  | 92 => Some backslash
  | 47 => Some "/"%char
  | 98 => Some "008"%char
  | 102 => Some "012"%char
  | 110 => Some "010"%char
  | 114 => Some "013"%char
  | 116 => Some "009"%char
  | _ => None
  end.

Definition prepend (p : string) (r : option (string * string)) : option (string * string) :=
  match r with
  | Some (s, rest) => Some (p ++ s, rest)
  | None => None
  end.

(** The characters of a string literal after its opening quote: the decoded
    string and the text after the closing quote. *)
Fixpoint parse_chars (s : string) : option (string * string) :=
  match s with
  | EmptyString => None
  | String c r =>
      if (c =? dquote)%char then Some (EmptyString, r)
      else if (c =? backslash)%char then
        match r with
        | EmptyString => None
        | String e r1 =>
            match simple_escape e with
            | Some ch => prepend (String ch EmptyString) (parse_chars r1)
            | None =>
                if (e =? "u")%char then
                  match r1 with
                  | String h1 (String h2 (String h3 (String h4 r2))) =>
                      match hex4 h1 h2 h3 h4 with
                      | None => None
                      | Some u =>
                          match r2 with
                          | String b (String v (String l1 (String l2 (String l3 (String l4 r3))))) =>
                              match hex4 l1 l2 l3 l4 with
                              | Some w =>
                                  if is_high u && (b =? backslash)%char && (v =? "u")%char
                                     && is_low w
                                  then prepend (utf8 (pair_cp u w)) (parse_chars r3)
                                  else prepend (utf8 u) (parse_chars r2)
                              | None => prepend (utf8 u) (parse_chars r2)
                              end
                          | _ => prepend (utf8 u) (parse_chars r2)
                          end
                      end
                  | _ => None
                  end
                else None
            end
        end
      else if (N_of_ascii c <? 32)%N then None
      else prepend (String c EmptyString) (parse_chars r)
  end.

(** A run of decimal digits: their value, their number, the rest. *)
Fixpoint span_digits (s : string) (acc : N) (cnt : nat) : N * nat * string :=
  match s with
  | String c r =>
      match digit_val c with
      | Some d => span_digits r (acc * 10 + d)%N (S cnt)
      | None => (acc, cnt, s)
      end
  | EmptyString => (acc, cnt, s)
  end.

Definition parse_int (s : string) : option (N * string) :=
  match s with
  | String c r =>
      if (c =? "0")%char then Some (0%N, r)
      else match span_digits s 0 0 with
           | (_, O, _) => None
           | (n, _, rest) => Some (n, rest)
           end
  | EmptyString => None
  end.

Definition parse_frac (s : string) : option (N * nat * string) :=
  match s with
  | String c r =>
      if (c =? ".")%char then
        match span_digits r 0 0 with
        | (_, O, _) => None
        | res => Some res
        end
      else Some (0%N, O, s)
  | EmptyString => Some (0%N, O, s)
  end.

Definition parse_exp (s : string) : option (Z * string) :=
  match s with
  | String c r =>
      if (c =? "e")%char || (c =? "E")%char then
        let '(neg, r1) :=
          match r with
          | String g r' =>
              if (g =? "-")%char then (true, r')
              else if (g =? "+")%char then (false, r') else (false, r)
          | EmptyString => (false, r)
          end in
        match span_digits r1 0 0 with
        | (_, O, _) => None
        | (n, _, rest) => Some (if neg then (- Z.of_N n)%Z else Z.of_N n, rest)
        end
      else Some (0%Z, s)
  | EmptyString => Some (0%Z, s)
  end.

Definition parse_number (s : string) : option (Number * string) :=
  let '(neg, s1) :=
    match s with
    | String c r => if (c =? "-")%char then (true, r) else (false, s)
    | EmptyString => (false, s)
    end in
  match parse_int s1 with
  | None => None
  | Some (i, s2) =>
      match parse_frac s2 with
      | None => None
      | Some (f, fc, s3) =>
          match parse_exp s3 with
          | None => None
          | Some (e, s4) =>
              let m := (Z.of_N i * 10 ^ Z.of_nat fc + Z.of_N f)%Z in
              Some (to_Number neg (inject_Z m * 10 ^ (e - Z.of_nat fc))%Q, s4)
          end
      end
  end.

Fixpoint strip_prefix (p s : string) : option string :=
  match p, s with
  | EmptyString, _ => Some s
  | String a p', String b s' => if (a =? b)%char then strip_prefix p' s' else None
  | String _ _, EmptyString => None
  end.

(** The JSON grammar by recursive descent, one production at a time: each
    function takes the parsers of the productions it refers to. *)

Definition ValueParser : Type := string -> option (JSValue * string).
Definition ElementsParser : Type := string -> option (list JSValue * string).
Definition MembersParser : Type := string -> option (list (string * JSValue) * string).

(** A value, after optional white space. *)
Definition value_body (pe : ElementsParser) (pm : MembersParser) : ValueParser :=
  fun s =>
    match skip_ws s with
    | EmptyString => None
    | String c r as t =>
        if (c =? "{")%char then
          match skip_ws r with
          | String d r' =>
              if (d =? "}")%char then Some (JObj [], r')
              else match pm r with
                   | Some (ps, rest) => Some (JObj ps, rest)
                   | None => None
                   end
          | EmptyString => None
          end
        else if (c =? "[")%char then
          match skip_ws r with
          | String d r' =>
              if (d =? "]")%char then Some (JArr [], r')
              else match pe r with
                   | Some (vs, rest) => Some (JArr vs, rest)
                   | None => None
                   end
          | EmptyString => None
          end
        else if (c =? dquote)%char then
          match parse_chars r with
          | Some (str, rest) => Some (JStr str, rest)
          | None => None
          end
        else if (c =? "t")%char then
          option_map (fun rest => (JBool true, rest)) (strip_prefix "true" t)
        else if (c =? "f")%char then
          option_map (fun rest => (JBool false, rest)) (strip_prefix "false" t)
        else if (c =? "n")%char then
          option_map (fun rest => (JNull, rest)) (strip_prefix "null" t)
        else
          match parse_number t with
          | Some (x, rest) => Some (JNum x, rest)
          | None => None
          end
    end.

(** The elements of a non-empty array, up to and including its bracket. *)
Definition elements_body (pv : ValueParser) (pe : ElementsParser) : ElementsParser :=
  fun s =>
    match pv s with
    | None => None
    | Some (v, r) =>
        match skip_ws r with
        | String c r' =>
            if (c =? ",")%char then
              match pe r' with
              | Some (vs, rest) => Some (v :: vs, rest)
              | None => None
              end
            else if (c =? "]")%char then Some ([v], r')
            else None
        | EmptyString => None
        end
    end.

(** The members of a non-empty object, up to and including its brace. *)
Definition members_body (pv : ValueParser) (pm : MembersParser) : MembersParser :=
  fun s =>
    match skip_ws s with
    | String q r =>
        if (q =? dquote)%char then
          match parse_chars r with
          | None => None
          | Some (key, r1) =>
              match skip_ws r1 with
              | String c r2 =>
                  if (c =? ":")%char then
                    match pv r2 with
                    | None => None
                    | Some (v, r3) =>
                        match skip_ws r3 with
                        | String d r4 =>
                            if (d =? ",")%char then
                              match pm r4 with
                              | Some (ps, rest) => Some ((key, v) :: ps, rest)
                              | None => None
                              end
                            else if (d =? "}")%char then Some ([(key, v)], r4)
                            else None
                        | EmptyString => None
                        end
                    end
                  else None
              | EmptyString => None
              end
          end
        else None
    | EmptyString => None
    end.

(** The productions tied together, [fuel] bounding the depth of the calls.
    Of two calls in a row one consumes a character, so the outcome is the
    same for every [fuel] above twice the length of the text (this is
    [parse_value_stable] below). *)
Fixpoint parse_value (fuel : nat) (s : string) : option (JSValue * string) :=
  match fuel with
  | O => None
  | S fuel' =>
      value_body (fun r => parse_elements fuel' r) (fun r => parse_members fuel' r) s
  end
with parse_elements (fuel : nat) (s : string) : option (list JSValue * string) :=
  match fuel with
  | O => None
  | S fuel' =>
      elements_body (fun r => parse_value fuel' r) (fun r => parse_elements fuel' r) s
  end
with parse_members (fuel : nat) (s : string) : option (list (string * JSValue) * string) :=
  match fuel with
  | O => None
  | S fuel' =>
      members_body (fun r => parse_value fuel' r) (fun r => parse_members fuel' r) s
  end.

(** [JSON.parse text]: [None] when it throws a SyntaxError. *)
Definition JSON_parse (text : string) : option JSValue :=
  match parse_value (2 * String.length text + 2) text with
  | Some (v, rest) =>
      match skip_ws rest with
      | EmptyString => Some v
      | String _ _ => None
      end
  | None => None
  end.

(** The outcome of evaluating an expression that may throw. *)
Inductive Completion (A : Type) : Type :=
| Normal (a : A)
| Throw.
Arguments Normal {A} a.
Arguments Throw {A}.

(** The own property [key] of an object built by [JSON.parse]: a later
    duplicate of a key replaces an earlier one. *)
Fixpoint own_property (key : string) (props : list (string * JSValue)) : option JSValue :=
  match props with
  | [] => None
  | (k, v) :: rest =>
      match own_property key rest with
      | Some w => Some w
      | None => if (k =? key)%string then Some v else None
      end
  end.

(** [v.key] for a name [key] that no prototype defines: [undefined] is
    [None]; on [null] the access throws a TypeError. *)
Definition Get (v : JSValue) (key : string) : Completion (option JSValue) :=
  match v with
  | JNull => Throw
  | JObj props => Normal (own_property key props)
  | _ => Normal None
  end.

Fixpoint join (sep : string) (l : list string) : string :=
  match l with
  | [] => EmptyString
  | [x] => x
  | x :: rest => x ++ sep ++ join sep rest
  end.

Fixpoint sequence (l : list (Completion string)) : Completion (list string) :=
  match l with
  | [] => Normal []
  | Normal x :: rest =>
      match sequence rest with
      | Normal xs => Normal (x :: xs)
      | Throw => Throw
      end
  | Throw :: _ => Throw
  end.

(** ToString on a value of [JSON.parse].  An array is joined with commas, a
    [null] element giving the empty string; an object is [[object Object]]
    unless an own property shadows [toString], which leaves no callable
    conversion and throws a TypeError. *)
Fixpoint ToString (v : JSValue) : Completion string :=
  match v with
  | JNull => Normal "null"
  | JBool true => Normal "true"
  | JBool false => Normal "false"
  | JNum x => Normal (Number_toString x)
  | JStr s => Normal s
  | JArr items =>
      match sequence (map (fun i => match i with
                                    | JNull => Normal EmptyString
                                    | _ => ToString i
                                    end) items) with
      | Normal parts => Normal (join "," parts)
      | Throw => Throw
      end
  | JObj props =>
      match own_property "toString" props with
      | Some _ => Throw
      | None => Normal "[object Object]"
      end
  end.

(** The substitution [${e}] of a template literal. *)
Definition template_value (e : option JSValue) : Completion string :=
  match e with
  | None => Normal "undefined"
  | Some v => ToString v
  end.

Definition hex_digit (n : N) : ascii :=
  if (n <? 10)%N then byte (48 + n) else byte (87 + n).

(** [JSON.stringify] of a string of well-formed text. *)
Fixpoint quote_chars (s : string) : string :=
  match s with
  | EmptyString => EmptyString
  | String c r =>
      let n := N_of_ascii c in
      (if (n =? 34)%N then String backslash (String dquote EmptyString)
       else if (n =? 92)%N then String backslash (String backslash EmptyString)
       else if (n =? 8)%N then String backslash "b"
       else if (n =? 12)%N then String backslash "f"
       else if (n =? 10)%N then String backslash "n"
       else if (n =? 13)%N then String backslash "r"
       else if (n =? 9)%N then String backslash "t"
       else if (n <? 32)%N then
         String backslash
           (String "u" (String "0" (String "0"
              (String (hex_digit (n / 16)) (String (hex_digit (n mod 16)) EmptyString)))))
       else String c EmptyString) ++ quote_chars r
  end.

Definition JSON_quote (s : string) : string :=
  String dquote (quote_chars s ++ String dquote EmptyString).

(** A parser consumes input: what it leaves is shorter than what it got. *)
Definition shrinks {A : Type} (p : string -> option (A * string)) : Prop :=
  forall s a r, p s = Some (a, r) -> String.length r < String.length s.

End JS.

(** ** The component [App] *)

Module App.
Local Open Scope string_scope.
Import Float64 JS.

(** The selected [File]: the fields the component reads. *)
Record File : Type := { name : string; size : N }.

(** The progress event of the upload library: [loaded] and [total] are byte
    counts (integers below [2^53], exact as Numbers) or [undefined]. *)
Record Progress : Type := { loaded : option N; total : option N }.

(** [process.env]: the variables read at module level. *)
Record Env : Type := {
  REACT_APP_S3_BUCKET : option string;
  REACT_APP_WEBSOCKET_URL : option string
}.

(** [a || d] on an optional string: [undefined] and the empty string are falsy. *)
Definition or_default (a : option string) (d : string) : string :=
  match a with
  | Some (String c r) => String c r
  | _ => d
  end.

Definition bucketName (e : Env) : string :=
  or_default (REACT_APP_S3_BUCKET e) "vehicle-identifier-bucket".

Definition webSocketUrl (e : Env) : string :=
  or_default (REACT_APP_WEBSOCKET_URL e)
    "wss://mwtqeze40m.execute-api.us-east-1.amazonaws.com/dev-vehicle/".

Inductive ReadyState : Type := CONNECTING | OPEN | CLOSING | CLOSED.

(** The socket object held in the [ws] cell; its mutable [readyState] is
    part of the browser state, shared by every closure that holds [ws]. *)
Record WebSocket : Type := { url : string }.

(** [setTimeout] returns an integer greater than zero. *)
Definition TimerId : Type := positive.

(** Each call of [processImage] that starts an upload is one session; its
    number is a ghost label, never read by the handlers. *)
Definition UploadId : Type := nat.

(** A pending timer.  The only callback ever scheduled is the one of
    [sendMessage]; [timer_owner] is the ghost label of the session that
    scheduled it. *)
Record Timer : Type := { timer_id : TimerId; due : N; timer_owner : UploadId }.

(** An upload in flight: the closure of the suspended [processImage] call,
    which holds the selected file and the [ws] of the render that created it. *)
Record Upload : Type := {
  upload_id : UploadId;
  upload_image : File;
  upload_ws : option WebSocket
}.

(** A frame handed to [ws.send], with the ghost label of its session. *)
Record Sent : Type := { sent_by : UploadId; frame : string }.

Record State : Type := {
  (* the cells of the component *)
  image : option File;
  message : string;
  ws : option WebSocket;
  numberPlate : string;
  socketStatusColour : string;
  responseTimeoutRef : option TimerId;
  (* the browser *)
  env : Env;
  clock : N;
  readyState : ReadyState;
  timers : list Timer;
  nextTimer : TimerId;
  uploads : list Upload;
  nextUpload : UploadId;
  outbox : list Sent
}.

Definition setImage (v : option File) (s : State) : State :=
  {| image := v; message := message s; ws := ws s; numberPlate := numberPlate s;
     socketStatusColour := socketStatusColour s;
     responseTimeoutRef := responseTimeoutRef s; env := env s; clock := clock s;
     readyState := readyState s; timers := timers s; nextTimer := nextTimer s;
     uploads := uploads s; nextUpload := nextUpload s; outbox := outbox s |}.

Definition setMessage (v : string) (s : State) : State :=
  {| image := image s; message := v; ws := ws s; numberPlate := numberPlate s;
     socketStatusColour := socketStatusColour s;
     responseTimeoutRef := responseTimeoutRef s; env := env s; clock := clock s;
     readyState := readyState s; timers := timers s; nextTimer := nextTimer s;
     uploads := uploads s; nextUpload := nextUpload s; outbox := outbox s |}.

Definition setWs (v : option WebSocket) (s : State) : State :=
  {| image := image s; message := message s; ws := v; numberPlate := numberPlate s;
     socketStatusColour := socketStatusColour s;
     responseTimeoutRef := responseTimeoutRef s; env := env s; clock := clock s;
     readyState := readyState s; timers := timers s; nextTimer := nextTimer s;
     uploads := uploads s; nextUpload := nextUpload s; outbox := outbox s |}.

Definition setNumberPlate (v : string) (s : State) : State :=
  {| image := image s; message := message s; ws := ws s; numberPlate := v;
     socketStatusColour := socketStatusColour s;
     responseTimeoutRef := responseTimeoutRef s; env := env s; clock := clock s;
     readyState := readyState s; timers := timers s; nextTimer := nextTimer s;
     uploads := uploads s; nextUpload := nextUpload s; outbox := outbox s |}.

Definition setSocketStatusColour (v : string) (s : State) : State :=
  {| image := image s; message := message s; ws := ws s;
     numberPlate := numberPlate s; socketStatusColour := v;
     responseTimeoutRef := responseTimeoutRef s; env := env s; clock := clock s;
     readyState := readyState s; timers := timers s; nextTimer := nextTimer s;
     uploads := uploads s; nextUpload := nextUpload s; outbox := outbox s |}.

Definition set_responseTimeoutRef (v : option TimerId) (s : State) : State :=
  {| image := image s; message := message s; ws := ws s;
     numberPlate := numberPlate s; socketStatusColour := socketStatusColour s;
     responseTimeoutRef := v; env := env s; clock := clock s;
     readyState := readyState s; timers := timers s; nextTimer := nextTimer s;
     uploads := uploads s; nextUpload := nextUpload s; outbox := outbox s |}.

Definition set_clock (v : N) (s : State) : State :=
  {| image := image s; message := message s; ws := ws s;
     numberPlate := numberPlate s; socketStatusColour := socketStatusColour s;
     responseTimeoutRef := responseTimeoutRef s; env := env s; clock := v;
     readyState := readyState s; timers := timers s; nextTimer := nextTimer s;
     uploads := uploads s; nextUpload := nextUpload s; outbox := outbox s |}.

Definition set_readyState (v : ReadyState) (s : State) : State :=
  {| image := image s; message := message s; ws := ws s;
     numberPlate := numberPlate s; socketStatusColour := socketStatusColour s;
     responseTimeoutRef := responseTimeoutRef s; env := env s; clock := clock s;
     readyState := v; timers := timers s; nextTimer := nextTimer s;
     uploads := uploads s; nextUpload := nextUpload s; outbox := outbox s |}.

Definition set_timers (v : list Timer) (s : State) : State :=
  {| image := image s; message := message s; ws := ws s;
     numberPlate := numberPlate s; socketStatusColour := socketStatusColour s;
     responseTimeoutRef := responseTimeoutRef s; env := env s; clock := clock s;
     readyState := readyState s; timers := v; nextTimer := nextTimer s;
     uploads := uploads s; nextUpload := nextUpload s; outbox := outbox s |}.

Definition set_nextTimer (v : TimerId) (s : State) : State :=
  {| image := image s; message := message s; ws := ws s;
     numberPlate := numberPlate s; socketStatusColour := socketStatusColour s;
     responseTimeoutRef := responseTimeoutRef s; env := env s; clock := clock s;
     readyState := readyState s; timers := timers s; nextTimer := v;
     uploads := uploads s; nextUpload := nextUpload s; outbox := outbox s |}.

Definition set_uploads (v : list Upload) (s : State) : State :=
  {| image := image s; message := message s; ws := ws s;
     numberPlate := numberPlate s; socketStatusColour := socketStatusColour s;
     responseTimeoutRef := responseTimeoutRef s; env := env s; clock := clock s;
     readyState := readyState s; timers := timers s; nextTimer := nextTimer s;
     uploads := v; nextUpload := nextUpload s; outbox := outbox s |}.

Definition set_nextUpload (v : UploadId) (s : State) : State :=
  {| image := image s; message := message s; ws := ws s;
     numberPlate := numberPlate s; socketStatusColour := socketStatusColour s;
     responseTimeoutRef := responseTimeoutRef s; env := env s; clock := clock s;
     readyState := readyState s; timers := timers s; nextTimer := nextTimer s;
     uploads := uploads s; nextUpload := v; outbox := outbox s |}.

Definition set_outbox (v : list Sent) (s : State) : State :=
  {| image := image s; message := message s; ws := ws s;
     numberPlate := numberPlate s; socketStatusColour := socketStatusColour s;
     responseTimeoutRef := responseTimeoutRef s; env := env s; clock := clock s;
     readyState := readyState s; timers := timers s; nextTimer := nextTimer s;
     uploads := uploads s; nextUpload := nextUpload s; outbox := v |}.

(** The state before the first effect has run. *)
Definition init (e : Env) : State :=
  {| image := None; message := ""; ws := None; numberPlate := "";
     socketStatusColour := "grey"; responseTimeoutRef := None;
     env := e; clock := 0; readyState := CONNECTING; timers := [];
     nextTimer := 1%positive; uploads := []; nextUpload := 0; outbox := [] |}.

(** *** Timers *)

Definition clearTimeout (id : TimerId) (s : State) : State :=
  set_timers (filter (fun t => negb (Pos.eqb (timer_id t) id)) (timers s)) s.

Definition setTimeout (ms : N) (owner : UploadId) (s : State) : TimerId * State :=
  let id := nextTimer s in
  let t := {| timer_id := id; due := (clock s + ms)%N; timer_owner := owner |} in
  (id, set_nextTimer (Pos.succ id) (set_timers (timers s ++ [t]) s)).

Definition pending (id : TimerId) (s : State) : option Timer :=
  find (fun t => Pos.eqb (timer_id t) id) (timers s).

(** The callback scheduled by [sendMessage]. *)
Definition responseTimeout (s : State) : State :=
  setMessage "No response from server yet. Check backend logs." s.

(** *** The handlers of the socket *)

Definition ws_onopen (s : State) : State :=
  setSocketStatusColour "green" s.

(** The first statement of [ws.onmessage]:
    [if (responseTimeoutRef.current) { clearTimeout(...); ... = null }]. *)
Definition clear_response_timeout (s : State) : State :=
  match responseTimeoutRef s with
  | Some id => set_responseTimeoutRef None (clearTimeout id s)
  | None => s
  end.

(** [ws.onmessage]: the timer is cleared first; then whatever throws inside
    the [try] leaves the state as it is at that point. *)
Definition ws_onmessage (data : string) (s : State) : State :=
  let s1 := clear_response_timeout s in
  match JSON_parse data with
  | None => s1
  | Some d =>
      match Get d "message" with
      | Throw => s1
      | Normal m =>
          let s2 := setMessage "Completed" s1 in
          match template_value m with
          | Throw => s2
          | Normal t => setNumberPlate ("Number plate: " ++ t) s2
          end
      end
  end.

Definition ws_onerror (s : State) : State :=
  setMessage "WebSocket error while processing image" (setSocketStatusColour "red" s).

Definition ws_onclose (s : State) : State :=
  setSocketStatusColour "grey" s.

(** *** Upload *)

(** [a || b] on byte counts: [undefined] and [0] are falsy. *)
Definition or_else (a : option N) (b : N) : N :=
  match a with
  | Some (Npos p) => Npos p
  | _ => b
  end.

Definition progress_loaded (p : option Progress) : N :=
  or_else (match p with Some e => loaded e | None => None end) 0.

Definition progress_total (img : File) (p : option Progress) : N :=
  or_else (match p with Some e => total e | None => None end) (or_else (Some (size img)) 0).

(** [Math.min(100, Math.round((loaded / total) * 100))]. *)
Definition percent (l t : N) : Z :=
  Z.min 100 (Math_round (fmul (fdiv (inject_Z (Z.of_N l)) (inject_Z (Z.of_N t))) 100)).

(** The percentage in the words of the specification,
    [round(min(1, loaded/total) * 100)], read over the rationals: nothing is
    rounded before the end, and [round] is the nearest integer, a tie going
    up. *)
Definition exact_percent (l t : N) : Z :=
  Qfloor (Qmin 1 (inject_Z (Z.of_N l) / inject_Z (Z.of_N t)) * 100 + (1 # 2))%Q.

(** The exact percentage lies half-way between two integers. *)
Definition half_way (l t : N) : bool :=
  let x := (Qmin 1 (inject_Z (Z.of_N l) / inject_Z (Z.of_N t)) * 100 + (1 # 2))%Q in
  Qeq_bool x (inject_Z (Qfloor x)).

(** The listener of [httpUploadProgress] registered by [uploadFileToS3]. *)
Definition httpUploadProgress (img : File) (p : option Progress) (s : State) : State :=
  let l := progress_loaded p in
  let t := progress_total img p in
  if (0 <? t)%N then
    setMessage ("Uploading... " ++ Number_toString (of_Z (percent l t)) ++ "%") s
  else
    setMessage "Uploading..." s.

(** [uploadFileToS3] up to its [await]: the upload is created and started. *)
Definition uploadFileToS3_begin (img : File) (captured : option WebSocket) (s : State) : State :=
  let s1 := setMessage "Uploading... 0%" s in
  let u := {| upload_id := nextUpload s1; upload_image := img; upload_ws := captured |} in
  set_nextUpload (S (nextUpload s1)) (set_uploads (uploads s1 ++ [u]) s1).

(** [uploadFileToS3] after [done()] has resolved, and its [catch]. *)
Definition uploadFileToS3_resolved (s : State) : bool * State :=
  (true, setMessage "Upload is done" s).

Definition uploadFileToS3_rejected (s : State) : bool * State :=
  (false, setMessage "Upload is failed" s).

(** *** Notification *)

Definition payload (bucket key : string) : string :=
  lit "{'action':'sendVehicleInfo','message':{'bucket':" ++ JSON_quote bucket
    ++ lit ",'key':" ++ JSON_quote key ++ "}}".

Definition ws_send (owner : UploadId) (text : string) (s : State) : State :=
  set_outbox (outbox s ++ [{| sent_by := owner; frame := text |}]) s.

(** [sendMessage], with the [ws] of its closure.  On an open socket neither
    [JSON.stringify] of two strings, [ws.send] nor [setTimeout] throws, so
    the [catch] of the source is never entered. *)
Definition sendMessage (captured : option WebSocket) (owner : UploadId) (imageName : string)
    (s : State) : State :=
  match captured with
  | None => setMessage "WebSocket is not connected" s
  | Some _ =>
      match readyState s with
      | OPEN =>
          let s1 := setMessage ("Sending image " ++ imageName ++ " info....") s in
          let s2 := ws_send owner (payload (bucketName (env s1)) imageName) s1 in
          let s3 := setMessage "Processing image...." s2 in
          let '(id, s4) := setTimeout 15000 owner s3 in
          set_responseTimeoutRef (Some id) s4
      | _ => setMessage "WebSocket not ready yet. Please try again in a moment" s
      end
  end.

(** *** [processImage] *)

(** [event.target.files?.[0]]. *)
Definition first_file (files : option (list File)) : option File :=
  match files with
  | Some (f :: _) => Some f
  | _ => None
  end.

(** [processImage] up to its first [await]. *)
Definition processImage_begin (files : option (list File)) (s : State) : State :=
  match first_file files with
  | None => s
  | Some selectedImage =>
      let s1 := setNumberPlate "Number plate: ....." s in
      let s2 := setImage (Some selectedImage) s1 in
      let s3 := setMessage "Uploading... 0%" s2 in
      uploadFileToS3_begin selectedImage (ws s) s3
  end.

(** [processImage] after [uploadFileToS3] has returned [uploadResult]. *)
Definition processImage_resume (u : Upload) (r : bool * State) : State :=
  let '(uploadResult, s) := r in
  if uploadResult then sendMessage (upload_ws u) (upload_id u) (name (upload_image u)) s
  else s.

(** *** The event loop *)

Inductive Event : Type :=
| Mount
| Elapse (dt : N)
| FileSelected (files : option (list File))
| UploadProgress (u : UploadId) (p : option Progress)
| UploadDone (u : UploadId)
| UploadError (u : UploadId)
| SocketOpen
| SocketMessage (data : string)
| SocketError
| SocketClose
| TimerFired (id : TimerId)
| SocketClosing.

Definition find_upload (u : UploadId) (s : State) : option Upload :=
  find (fun x => Nat.eqb (upload_id x) u) (uploads s).

Definition remove_upload (u : UploadId) (s : State) : State :=
  set_uploads (filter (fun x => negb (Nat.eqb (upload_id x) u)) (uploads s)) s.

(** One task of the event loop; [None] when the event cannot occur in the
    state.  A timer runs when it is due: the clock does not pass the time
    of a pending timer.  [SocketOpen], [SocketMessage], [SocketError] and
    [SocketClose] are the tasks that dispatch an event to the handlers;
    [SocketClosing] is the task the browser queues when the closing handshake
    of an open socket starts: it moves [readyState] to [CLOSING] and runs no
    handler, the component has none for it. *)
Definition step (s : State) (e : Event) : option State :=
  match e with
  | Mount =>
      match ws s with
      | None => Some (set_readyState CONNECTING (setWs (Some {| url := webSocketUrl (env s) |}) s))
      | Some _ => None
      end
  | Elapse dt =>
      if forallb (fun t => (clock s + dt <=? due t)%N) (timers s)
      then Some (set_clock (clock s + dt)%N s)
      else None
  | FileSelected files => Some (processImage_begin files s)
  | UploadProgress u p =>
      match find_upload u s with
      | Some x => Some (httpUploadProgress (upload_image x) p s)
      | None => None
      end
  | UploadDone u =>
      match find_upload u s with
      | Some x => Some (processImage_resume x (uploadFileToS3_resolved (remove_upload u s)))
      | None => None
      end
  | UploadError u =>
      match find_upload u s with
      | Some x => Some (processImage_resume x (uploadFileToS3_rejected (remove_upload u s)))
      | None => None
      end
  | SocketOpen =>
      match ws s, readyState s with
      | Some _, CONNECTING => Some (ws_onopen (set_readyState OPEN s))
      | _, _ => None
      end
  | SocketMessage data =>
      match ws s, readyState s with
      | Some _, OPEN => Some (ws_onmessage data s)
      | _, _ => None
      end
  | SocketError =>
      match ws s with
      | Some _ => Some (ws_onerror (set_readyState CLOSED s))
      | None => None
      end
  | SocketClose =>
      match ws s with
      | Some _ => Some (ws_onclose (set_readyState CLOSED s))
      | None => None
      end
  | TimerFired id =>
      match pending id s with
      | Some t =>
          if (due t <=? clock s)%N then Some (responseTimeout (clearTimeout id s)) else None
      | None => None
      end
  | SocketClosing =>
      match ws s, readyState s with
      | Some _, OPEN => Some (set_readyState CLOSING s)
      | _, _ => None
      end
  end.

Fixpoint run (s : State) (evs : list Event) : option State :=
  match evs with
  | [] => Some s
  | e :: rest =>
      match step s e with
      | Some s' => run s' rest
      | None => None
      end
  end.

Definition reachable (s : State) : Prop :=
  exists e evs, run (init e) evs = Some s.

(** *** The phases of the specification, read off the status line *)

Inductive FailureReason : Type :=
| UploadFailed | ChannelNotReady | ChannelError | Timeout.

Inductive Phase : Type :=
| Idle | Uploading | Notifying | AwaitingResult | Completed
| Failed (reason : FailureReason).

Definition phase_of_status (m : string) : Phase :=
  if prefix "Uploading..." m then Uploading
  else if (m =? "Upload is done") || prefix "Sending image " m then Notifying
  else if m =? "Processing image...." then AwaitingResult
  else if m =? "Completed" then Completed
  else if m =? "Upload is failed" then Failed UploadFailed
  else if (m =? "WebSocket is not connected")
          || (m =? "WebSocket not ready yet. Please try again in a moment")
       then Failed ChannelNotReady
  else if m =? "WebSocket error while processing image" then Failed ChannelError
  else if m =? "No response from server yet. Check backend logs." then Failed Timeout
  else Idle.

Definition phase (s : State) : Phase := phase_of_status (message s).

Definition timer_ids (s : State) : list TimerId := map timer_id (timers s).

Definition fired (id : TimerId) (e : Event) : bool :=
  match e with
  | TimerFired i => Pos.eqb i id
  | _ => false
  end.

Definition is_frame (e : Event) : bool :=
  match e with
  | SocketMessage _ => true
  | _ => false
  end.

(** *** Invariants of the event loop *)

(** Session [u] has sent no frame and owns no timer. *)
Definition silent_in (u : UploadId) (ts : list Timer) (ob : list Sent) : Prop :=
  (forall m, In m ob -> sent_by m <> u) /\ (forall t, In t ts -> timer_owner t <> u).

(** Identifiers are handed out in increasing order, the uploads in flight
    are distinct, and an upload in flight has not sent anything yet. *)
Definition wf_of (ts : list Timer) (nt : TimerId) (us : list Upload) (nu : UploadId)
    (ob : list Sent) : Prop :=
  (forall t, In t ts -> Pos.lt (timer_id t) nt /\ timer_owner t < nu) /\
  (forall x, In x us -> upload_id x < nu) /\
  (forall m, In m ob -> sent_by m < nu) /\
  NoDup (map upload_id us) /\
  (forall x, In x us -> silent_in (upload_id x) ts ob).

Definition wf (s : State) : Prop :=
  wf_of (timers s) (nextTimer s) (uploads s) (nextUpload s) (outbox s).

(** Session [u] is over and has been silent. *)
Definition over_of (u : UploadId) (ts : list Timer) (us : list Upload) (nu : UploadId)
    (ob : list Sent) : Prop :=
  u < nu /\ (forall x, In x us -> upload_id x <> u) /\ silent_in u ts ob.

Definition over (u : UploadId) (s : State) : Prop :=
  over_of u (timers s) (uploads s) (nextUpload s) (outbox s).

(** The session that sent the last notification (ghost); it need not be the
    session selected last, and other sessions may still be waiting.  The
    invariant ties it to [responseTimeoutRef]: a pending timer of that
    session is the one the reference holds. *)
Definition current_session (s : State) : option UploadId :=
  last (map (fun m => Some (sent_by m)) (outbox s)) None.

Definition tracked (s : State) : Prop :=
  forall t, In t (timers s) -> Some (timer_owner t) = current_session s ->
    responseTimeoutRef s = Some (timer_id t).

(** [responseTimeoutRef] holds nothing or the identifier of the timer that
    was started last. *)
Definition latest (s : State) : Prop :=
  forall id, responseTimeoutRef s = Some id -> nextTimer s = Pos.succ id.

(** Timer [id] is pending with deadline [d], which the clock has not passed. *)
Definition armed (id : TimerId) (d : N) (s : State) : Prop :=
  (exists t, pending id s = Some t /\ due t = d) /\
  (clock s <= d)%N /\ Pos.lt id (nextTimer s).

(** Timer [id] was handed out and is no longer pending. *)
Definition spent (id : TimerId) (s : State) : Prop :=
  (forall t, In t (timers s) -> timer_id t <> id) /\ Pos.lt id (nextTimer s).

End App.

(** ** Scenarios *)

Module Scenario.
Import JS App.
Local Open Scope string_scope.

Definition env0 : Env :=
  {| REACT_APP_S3_BUCKET := Some "b"; REACT_APP_WEBSOCKET_URL := None |}.

Definition car : File := {| name := "car.jpg"; size := 1000000 |}.
Definition van : File := {| name := "van.jpg"; size := 2000000 |}.

Definition bytes (l t : N) : option Progress :=
  Some {| loaded := Some l; total := Some t |}.

(** The socket is open and [car.jpg] is being uploaded. *)
Definition uploading : list Event := [Mount; SocketOpen; FileSelected (Some [car])].

(** The upload is done and the notification is sent: timer 1 is pending. *)
Definition awaiting : list Event := uploading ++ [UploadDone 0].

(** Five seconds into the wait a second file is selected. *)
Definition superseded : list Event :=
  awaiting ++ [Elapse 5000; FileSelected (Some [van])].

(** The socket has not opened yet when the file is selected. *)
Definition offline : list Event := [Mount; FileSelected (Some [car])].

(** The closing handshake starts while [car.jpg] is being uploaded. *)
Definition closing : list Event := uploading ++ [SocketClosing].

(** Two files are selected one after the other and the second upload is
    done first: both notifications are sent, timers 1 and 2 are pending. *)
Definition crossed : list Event :=
  [Mount; SocketOpen; FileSelected (Some [car]); FileSelected (Some [van]);
   UploadDone 1; UploadDone 0].

Definition after (evs : list Event) : State :=
  match run (init env0) evs with
  | Some s => s
  | None => init env0
  end.

Definition result_frame : string := lit "{'message':'XYZ123'}".

End Scenario.

(** ** The rest of the component: effect cleanup and views on runs *)

Module Lifecycle.
Import JS App.
Local Open Scope string_scope.

(** [webSocket.close()]: a socket that is connecting or open starts to
    close; one that is closing or closed is left alone. *)
Definition ws_close (s : State) : State :=
  match readyState s with
  | CONNECTING | OPEN => set_readyState CLOSING s
  | CLOSING | CLOSED => s
  end.

(** The cleanup returned by the first effect, run when the component
    unmounts: the timer in [responseTimeoutRef] is cleared (the reference is
    not reset) and the socket is closed. *)
Definition effect_cleanup (s : State) : State :=
  let s1 :=
    match responseTimeoutRef s with
    | Some id => clearTimeout id s
    | None => s
    end in
  ws_close s1.

(** The files that the selection events of a run hand to [processImage]. *)
Definition selected_by (e : Event) : list File :=
  match e with
  | FileSelected files =>
      match first_file files with
      | Some f => [f]
      | None => []
      end
  | _ => []
  end.

Definition selected (evs : list Event) : list File := flat_map selected_by evs.

(** The socket has been created and is closing or closed. *)
Definition closed (s : State) : Prop :=
  ws s <> None /\ (readyState s = CLOSING \/ readyState s = CLOSED).

(** The indicator follows the events of the socket, not its [readyState]:
    an open socket shows green, and green stays until the error or close
    event, so also while the socket is closing. *)
Definition indicator_ok (s : State) : Prop :=
  (readyState s = OPEN -> socketStatusColour s = "green") /\
  (socketStatusColour s = "green" -> readyState s = OPEN \/ readyState s = CLOSING) /\
  (ws s = None -> socketStatusColour s = "grey") /\
  (socketStatusColour s = "grey" \/ socketStatusColour s = "green"
   \/ socketStatusColour s = "red").

(** What has been sent and what is being uploaded comes from the files in
    [sel], one session each. *)
Definition accounted (sel : list File) (s : State) : Prop :=
  (forall x, In x (uploads s) -> In (upload_image x) sel) /\
  (forall m, In m (outbox s) ->
     exists f, In f sel /\ frame m = payload (bucketName (env s)) (name f)) /\
  List.length (outbox s) + List.length (uploads s) <= List.length sel /\
  nextUpload s = List.length sel.

(** Timers and the statuses of the wait exist only after a send. *)
Definition wait_follows_send (s : State) : Prop :=
  (forall t, In t (timers s) -> exists m, In m (outbox s) /\ sent_by m = timer_owner t) /\
  (outbox s = [] ->
   responseTimeoutRef s = None /\
   message s <> "Processing image...." /\
   message s <> "No response from server yet. Check backend logs.").

End Lifecycle.

(** * Properties *)

(** ** Rounding *)

Section Rounding.
Import Float64.
Local Open Scope Q_scope.

Lemma rhe_cases (x : Q) :
  (round_half_even x = Qfloor x /\ x - inject_Z (Qfloor x) <= 1 # 2) \/
  (round_half_even x = (Qfloor x + 1)%Z /\ 1 # 2 <= x - inject_Z (Qfloor x)).
Proof.
  unfold round_half_even.
  destruct (Qcompare_spec (x - inject_Z (Qfloor x)) (1 # 2)) as [H|H|H].
  - destruct (Z.even (Qfloor x)); [left|right]; split; auto; rewrite H; apply Qle_refl.
  - left; split; auto. apply Qlt_le_weak; exact H.
  - right; split; auto. apply Qlt_le_weak; exact H.
Qed.

Lemma rhe_lower (x : Q) : (Qfloor x <= round_half_even x)%Z.
Proof. destruct (rhe_cases x) as [[-> _]|[-> _]]; lia. Qed.

Lemma rhe_upper (x : Q) : (round_half_even x <= Qfloor x + 1)%Z.
Proof. destruct (rhe_cases x) as [[-> _]|[-> _]]; lia. Qed.

Lemma rhe_mono (x y : Q) : x <= y -> (round_half_even x <= round_half_even y)%Z.
Proof.
  intros Hxy.
  pose proof (Qfloor_resp_le _ _ Hxy) as Hf.
  destruct (Z.eq_dec (Qfloor x) (Qfloor y)) as [E|NE].
  2:{ pose proof (rhe_upper x); pose proof (rhe_lower y); lia. }
  unfold round_half_even. rewrite <- E.
  destruct (Qcompare_spec (x - inject_Z (Qfloor x)) (1 # 2)) as [H|H|H];
  destruct (Qcompare_spec (y - inject_Z (Qfloor x)) (1 # 2)) as [H'|H'|H'];
    try (destruct (Z.even (Qfloor x))); try lia; exfalso; lra.
Qed.

Lemma rhe_Z (z : Z) : round_half_even (inject_Z z) = z.
Proof.
  unfold round_half_even. rewrite Qfloor_Z.
  destruct (Qcompare_spec (inject_Z z - inject_Z z) (1 # 2)) as [H|H|H]; try reflexivity; exfalso; lra.
Qed.

Lemma pow2_pos (k : Z) : 0 < 2 ^ k.
Proof. apply Qpower_0_lt. reflexivity. Qed.

Lemma pow2_succ (k : Z) : 2 ^ (k + 1) == 2 * 2 ^ k.
Proof. rewrite Qpower_plus by discriminate. simpl (2 ^ 1). ring. Qed.

Lemma pow2_le (j k : Z) : (j <= k)%Z -> 2 ^ j <= 2 ^ k.
Proof. intros H. apply Qpower_le_compat_l; [exact H | discriminate]. Qed.

Lemma pow2_log2 (n : Z) : (0 < n)%Z ->
  2 ^ Z.log2 n <= inject_Z n /\ inject_Z n < 2 * 2 ^ Z.log2 n.
Proof.
  intros Hn. destruct (Z.log2_spec n Hn) as [Hlo Hhi].
  pose proof (Z.log2_nonneg n) as Hnn.
  rewrite <- Z.add_1_r in Hhi.
  split.
  - rewrite <- (Zpower_Qpower 2 _ Hnn). rewrite <- Zle_Qle. exact Hlo.
  - rewrite <- pow2_succ. rewrite <- (Zpower_Qpower 2 (Z.log2 n + 1)) by lia.
    rewrite <- Zlt_Qlt. exact Hhi.
Qed.

Lemma floor_log2_spec (x : Q) : 0 < x ->
  2 ^ floor_log2 x <= x /\ x < 2 ^ (floor_log2 x + 1).
Proof.
  intros Hx. unfold floor_log2.
  destruct x as [n d]. cbn [Qnum Qden].
  assert (Hn : (0 < n)%Z) by (unfold Qlt in Hx; cbn in Hx; lia).
  destruct (pow2_log2 n Hn) as [Hn1 Hn2].
  destruct (pow2_log2 (Zpos d) (eq_refl)) as [Hd1 Hd2].
  set (a := Z.log2 n) in *. set (b := Z.log2 (Z.pos d)) in *.
  pose proof (pow2_pos a) as Ha. pose proof (pow2_pos b) as Hb.
  assert (Hk : 2 ^ (a - b) * 2 ^ b == 2 ^ a).
  { rewrite <- Qpower_plus by discriminate. replace (a - b + b)%Z with a by lia. reflexivity. }
  assert (Hxd : (n # d) * inject_Z (Z.pos d) == inject_Z n).
  { rewrite Qmake_Qdiv. field. discriminate. }
  assert (Hdpos : 0 < inject_Z (Z.pos d)) by reflexivity.
  pose proof (pow2_pos (a - b)) as Hkpos.
  destruct (Qle_bool (2 ^ (a - b)) (n # d)) eqn:E.
  - apply Qle_bool_iff in E. split; [exact E|].
    rewrite pow2_succ.
    set (X := n # d) in *. set (D := inject_Z (Z.pos d)) in *. set (N := inject_Z n) in *.
    set (A := 2 ^ a) in *. set (B := 2 ^ b) in *. set (K := 2 ^ (a - b)) in *.
    nra.
  - assert (E' : (n # d) < 2 ^ (a - b)).
    { apply Qnot_le_lt. intros H. apply Qle_bool_iff in H. congruence. }
    replace (a - b - 1 + 1)%Z with (a - b)%Z by lia. split; [|exact E'].
    assert (Hk' : 2 * 2 ^ (a - b - 1) == 2 ^ (a - b)).
    { rewrite <- pow2_succ. replace (a - b - 1 + 1)%Z with (a - b)%Z by lia. reflexivity. }
    pose proof (pow2_pos (a - b - 1)) as Hk1pos.
    set (X := n # d) in *. set (D := inject_Z (Z.pos d)) in *. set (N := inject_Z n) in *.
    set (A := 2 ^ a) in *. set (B := 2 ^ b) in *. set (K := 2 ^ (a - b)) in *.
    set (K1 := 2 ^ (a - b - 1)) in *.
    nra.
Qed.

Lemma rnd_grid (x : Q) : rnd x == grid (Qred x).
Proof. unfold rnd. apply Qred_correct. Qed.

Lemma ulp_pos (x : Q) : 0 < ulp x.
Proof. apply pow2_pos. Qed.

Lemma floor_log2_mono (x y : Q) : 0 < x -> x <= y -> (floor_log2 x <= floor_log2 y)%Z.
Proof.
  intros Hx Hxy.
  destruct (floor_log2_spec x Hx) as [Hx1 _].
  destruct (floor_log2_spec y) as [_ Hy2]; [lra|].
  destruct (Z_le_gt_dec (floor_log2 x) (floor_log2 y)) as [H|H]; [exact H|exfalso].
  assert (Hp : 2 ^ (floor_log2 y + 1) <= 2 ^ floor_log2 x) by (apply pow2_le; lia).
  lra.
Qed.

Lemma div_le_div (x y u : Q) : 0 < u -> x <= y -> x / u <= y / u.
Proof.
  intros Hu Hxy. apply Qle_shift_div_l; [exact Hu|].
  assert (E : x / u * u == x) by (field; lra). rewrite E. exact Hxy.
Qed.

Lemma grid_nonneg (x : Q) : 0 <= x -> 0 <= grid x.
Proof.
  intros Hx. unfold grid. pose proof (ulp_pos x) as Hu.
  assert (H0 : 0 <= x / ulp x).
  { apply Qle_shift_div_l; [exact Hu|]. lra. }
  pose proof (Qfloor_resp_le _ _ H0) as Hf. change (Qfloor 0) with 0%Z in Hf.
  pose proof (rhe_lower (x / ulp x)) as Hl.
  assert (Hz : (0 <= round_half_even (x / ulp x))%Z) by lia.
  rewrite Zle_Qle in Hz. change (inject_Z 0) with 0 in Hz.
  apply Qmult_le_0_compat; [exact Hz|lra].
Qed.

Lemma grid_upper (x : Q) (c : Z) : 0 < x -> c = Z.max (floor_log2 x) (-1022) ->
  grid x <= 2 ^ (c + 1).
Proof.
  intros Hx Hc. unfold grid, ulp. rewrite <- Hc.
  destruct (floor_log2_spec x Hx) as [_ H2].
  assert (Hle : 2 ^ (floor_log2 x + 1) <= 2 ^ (c + 1)) by (apply pow2_le; lia).
  pose proof (pow2_pos (c - 52)) as Hu.
  assert (Hs : 2 ^ (c + 1) == inject_Z (2 ^ 53) * 2 ^ (c - 52)).
  { rewrite (Zpower_Qpower 2 53) by lia. change (inject_Z 2) with 2.
    rewrite <- Qpower_plus by discriminate. replace (53 + (c - 52))%Z with (c + 1)%Z by lia.
    reflexivity. }
  assert (Hq : x / 2 ^ (c - 52) <= inject_Z (2 ^ 53)).
  { apply Qle_shift_div_r; [exact Hu|]. lra. }
  apply rhe_mono in Hq. rewrite rhe_Z in Hq. rewrite Zle_Qle in Hq.
  rewrite Hs. apply Qmult_le_compat_r; [exact Hq|lra].
Qed.

Lemma grid_lower (y : Q) : 0 < y -> (-1022 <= floor_log2 y)%Z ->
  2 ^ floor_log2 y <= grid y.
Proof.
  intros Hy Hn. unfold grid, ulp. rewrite Z.max_l by lia.
  destruct (floor_log2_spec y Hy) as [H1 _].
  set (e := floor_log2 y) in *.
  pose proof (pow2_pos (e - 52)) as Hu.
  assert (Hs : 2 ^ e == inject_Z (2 ^ 52) * 2 ^ (e - 52)).
  { rewrite (Zpower_Qpower 2 52) by lia. change (inject_Z 2) with 2.
    rewrite <- Qpower_plus by discriminate. replace (52 + (e - 52))%Z with e by lia.
    reflexivity. }
  assert (Hq : inject_Z (2 ^ 52) <= y / 2 ^ (e - 52)).
  { apply Qle_shift_div_l; [exact Hu|]. lra. }
  apply rhe_mono in Hq. rewrite rhe_Z in Hq. rewrite Zle_Qle in Hq.
  rewrite Hs. apply Qmult_le_compat_r; [exact Hq|lra].
Qed.

Lemma grid_mono (x y : Q) : 0 < x -> x <= y -> grid x <= grid y.
Proof.
  intros Hx Hxy. assert (Hy : 0 < y) by lra.
  pose proof (floor_log2_mono x y Hx Hxy) as He.
  destruct (Z.eq_dec (Z.max (floor_log2 x) (-1022)) (Z.max (floor_log2 y) (-1022))) as [E|NE].
  - unfold grid, ulp. rewrite <- E.
    pose proof (pow2_pos (Z.max (floor_log2 x) (-1022) - 52)) as Hu.
    apply Qmult_le_compat_r; [|lra].
    rewrite <- Zle_Qle. apply rhe_mono. apply div_le_div; assumption.
  - apply Qle_trans with (2 ^ (Z.max (floor_log2 x) (-1022) + 1)).
    + apply grid_upper; [exact Hx|reflexivity].
    + apply Qle_trans with (2 ^ floor_log2 y).
      * apply pow2_le. lia.
      * apply grid_lower; [exact Hy|lia].
Qed.

Lemma rnd_nonneg (x : Q) : 0 <= x -> 0 <= rnd x.
Proof.
  intros Hx. rewrite rnd_grid. apply grid_nonneg. rewrite Qred_correct. exact Hx.
Qed.

Lemma rnd_mono (x y : Q) : 0 <= x -> x <= y -> rnd x <= rnd y.
Proof.
  intros Hx Hxy.
  destruct (Qeq_dec x y) as [E|NE].
  - unfold rnd. rewrite (Qred_complete _ _ E). apply Qle_refl.
  - destruct (Qeq_dec x 0) as [E0|N0].
    + assert (Ex : rnd x = rnd 0) by (unfold rnd; rewrite (Qred_complete _ _ E0); reflexivity).
      rewrite Ex. change (rnd 0) with 0. apply rnd_nonneg. lra.
    + rewrite !rnd_grid. apply grid_mono; rewrite !Qred_correct; [|exact Hxy].
      destruct (Qlt_le_dec 0 x) as [H|H]; [exact H|]. exfalso. apply N0. lra.
Qed.

(** *** The error of one rounding *)

Lemma rhe_near (z : Q) :
  z - (1 # 2) <= inject_Z (round_half_even z) /\ inject_Z (round_half_even z) <= z + (1 # 2).
Proof.
  pose proof (Qfloor_le z) as Hl. pose proof (Qlt_floor z) as Hu.
  rewrite inject_Z_plus in Hu. change (inject_Z 1) with 1 in Hu.
  destruct (rhe_cases z) as [[E H]|[E H]]; rewrite E.
  - split; lra.
  - rewrite inject_Z_plus. change (inject_Z 1) with 1. split; lra.
Qed.

Lemma grid_near (y : Q) : 0 < y -> (-1022 <= floor_log2 y)%Z ->
  y - y * (1 # 9007199254740992) <= grid y /\ grid y <= y + y * (1 # 9007199254740992).
Proof.
  intros Hy Hn. unfold grid, ulp. rewrite Z.max_l by lia.
  destruct (floor_log2_spec y Hy) as [H1 _].
  set (e := floor_log2 y) in *.
  pose proof (pow2_pos (e - 52)) as Hu.
  assert (Hs : 2 ^ e == 4503599627370496 * 2 ^ (e - 52)).
  { change 4503599627370496 with (2 ^ 52). rewrite <- Qpower_plus by discriminate.
    replace (52 + (e - 52))%Z with e by lia. reflexivity. }
  set (u := 2 ^ (e - 52)) in *.
  destruct (rhe_near (y / u)) as [Ha Hb].
  set (r := inject_Z (round_half_even (y / u))) in *.
  assert (E : y / u * u == y) by (field; lra).
  set (z := y / u) in *. set (p := 2 ^ e) in *.
  split; nra.
Qed.

Lemma rnd_near (x : Q) : 0 < x -> (-1022 <= floor_log2 (Qred x))%Z ->
  x - x * (1 # 9007199254740992) <= rnd x /\ rnd x <= x + x * (1 # 9007199254740992).
Proof.
  intros Hx Hn. pose proof (Qred_correct x) as E.
  assert (Hy : 0 < Qred x) by lra.
  destruct (grid_near (Qred x) Hy Hn) as [Ha Hb].
  pose proof (rnd_grid x) as G.
  set (g := grid (Qred x)) in *. set (y := Qred x) in *. set (r := rnd x) in *.
  split; lra.
Qed.

(** Above [2^-1022] a value is in the normal range. *)
Lemma normal_range (c x : Q) : 0 < c -> (-1022 <= floor_log2 c)%Z -> c <= x ->
  (-1022 <= floor_log2 (Qred x))%Z.
Proof.
  intros Hc Hn Hx. pose proof (Qred_correct x) as E.
  assert (H : c <= Qred x) by lra.
  pose proof (floor_log2_mono c (Qred x) Hc H). lia.
Qed.

End Rounding.

(** ** The JSON parser *)

Section Parser.
Import Float64 JS.
Local Open Scope string_scope.

Lemma skip_ws_length (s : string) : String.length (skip_ws s) <= String.length s.
Proof.
  induction s as [|c s IH]; simpl; [lia|].
  destruct (is_ws c); simpl; lia.
Qed.

Lemma skip_ws_cons (s : string) (c : ascii) (r : string) :
  skip_ws s = String c r -> String.length r < String.length s.
Proof.
  intros H. pose proof (skip_ws_length s) as L. rewrite H in L. simpl in L. lia.
Qed.

Lemma prepend_Some (p : string) (o : option (string * string)) (str rest : string) :
  prepend p o = Some (str, rest) -> exists str', o = Some (str', rest).
Proof.
  destruct o as [[a b]|]; simpl; intros H; inversion H; subst. eauto.
Qed.

Lemma parse_chars_shrinks : shrinks parse_chars.
Proof.
  assert (G : forall n s, String.length s <= n ->
            forall a r, parse_chars s = Some (a, r) -> String.length r < String.length s).
  { induction n as [|n IH]; intros s L a r H.
    - destruct s; [discriminate|simpl in L; lia].
    - destruct s as [|c s]; [discriminate|]. simpl in L.
      cbn [parse_chars] in H.
      destruct (c =? dquote)%char.
      { inversion H; subst. simpl. lia. }
      destruct (c =? backslash)%char.
      2:{ destruct (N_of_ascii c <? 32)%N; [discriminate|].
          apply prepend_Some in H. destruct H as [x H].
          apply IH in H; [simpl; lia|lia]. }
      destruct s as [|e r1]; [discriminate|]. simpl in L.
      destruct (simple_escape e).
      { apply prepend_Some in H. destruct H as [x H].
        apply IH in H; [simpl; lia|lia]. }
      destruct (e =? "u")%char; [|discriminate].
      destruct r1 as [|h1 [|h2 [|h3 [|h4 r2]]]]; try discriminate. simpl in L.
      destruct (hex4 h1 h2 h3 h4) as [u|]; [|discriminate].
      assert (K : forall x, parse_chars r2 = Some (x, r) ->
                  String.length r < String.length (String c (String e
                    (String h1 (String h2 (String h3 (String h4 r2))))))).
      { intros x Hx. apply IH in Hx; [simpl; lia|lia]. }
      destruct r2 as [|b [|v [|l1 [|l2 [|l3 [|l4 r3]]]]]];
        try (apply prepend_Some in H; destruct H as [x H]; apply (K x H)).
      destruct (hex4 l1 l2 l3 l4) as [w|];
        [|apply prepend_Some in H; destruct H as [x H]; apply (K x H)].
      destruct (is_high u && (b =? backslash)%char && (v =? "u")%char && is_low w);
        [|apply prepend_Some in H; destruct H as [x H]; apply (K x H)].
      apply prepend_Some in H. destruct H as [x H].
      apply IH in H; [simpl in *; lia|simpl in *; lia]. }
  intros s a r H. apply (G (String.length s) s (le_n _) a r H).
Qed.

Lemma span_digits_length (s : string) :
  forall acc cnt n cnt' r, span_digits s acc cnt = (n, cnt', r) ->
    String.length r + cnt' = String.length s + cnt.
Proof.
  induction s as [|c s IH]; intros acc cnt n cnt' r H; simpl in H.
  - inversion H; subst. reflexivity.
  - destruct (digit_val c).
    + apply IH in H. simpl. lia.
    + inversion H; subst. reflexivity.
Qed.

Lemma parse_int_shrinks : shrinks parse_int.
Proof.
  intros s a r H. unfold parse_int in H. destruct s as [|c s]; [discriminate|].
  destruct (c =? "0")%char.
  - inversion H; subst. simpl. lia.
  - destruct (span_digits (String c s) 0 0) as [[n cnt] rest] eqn:E.
    apply span_digits_length in E. destruct cnt; [discriminate|].
    inversion H; subst. lia.
Qed.

Lemma parse_frac_length (s : string) (f : N) (fc : nat) (r : string) :
  parse_frac s = Some (f, fc, r) -> String.length r <= String.length s.
Proof.
  unfold parse_frac. destruct s as [|c s]; [intros H; inversion H; subst; lia|].
  destruct (c =? ".")%char.
  - destruct (span_digits s 0 0) as [[n cnt] rest] eqn:E.
    apply span_digits_length in E. destruct cnt; [discriminate|].
    intros H; inversion H; subst. simpl. lia.
  - intros H; inversion H; subst. lia.
Qed.

Lemma parse_exp_length (s : string) (e : Z) (r : string) :
  parse_exp s = Some (e, r) -> String.length r <= String.length s.
Proof.
  unfold parse_exp. destruct s as [|c s]; [intros H; inversion H; subst; lia|].
  destruct ((c =? "e")%char || (c =? "E")%char).
  - assert (K : forall neg r1, String.length r1 <= String.length s ->
              match span_digits r1 0 0 with
              | (_, O, _) => None
              | (n, _, rest) => Some (if neg : bool then (- Z.of_N n)%Z else Z.of_N n, rest)
              end = Some (e, r) -> String.length r <= String.length (String c s)).
    { intros neg r1 L H.
      destruct (span_digits r1 0 0) as [[n cnt] rest] eqn:E.
      apply span_digits_length in E. destruct cnt; [discriminate|].
      inversion H; subst. simpl. lia. }
    destruct s as [|g r']; [apply (K false); simpl; lia|].
    destruct (g =? "-")%char; [apply (K true); simpl; lia|].
    destruct (g =? "+")%char; apply (K false); simpl; lia.
  - intros H; inversion H; subst. lia.
Qed.

Lemma parse_number_shrinks : shrinks parse_number.
Proof.
  intros s a r H. unfold parse_number in H.
  assert (K : forall neg s1, String.length s1 <= String.length s ->
            match parse_int s1 with
            | None => None
            | Some (i, s2) =>
                match parse_frac s2 with
                | None => None
                | Some (f, fc, s3) =>
                    match parse_exp s3 with
                    | None => None
                    | Some (e, s4) =>
                        let m := (Z.of_N i * 10 ^ Z.of_nat fc + Z.of_N f)%Z in
                        Some (to_Number neg (inject_Z m * 10 ^ (e - Z.of_nat fc))%Q, s4)
                    end
                end
            end = Some (a, r) -> String.length r < String.length s).
  { intros neg s1 L E.
    destruct (parse_int s1) as [[i s2]|] eqn:E1; [|discriminate].
    destruct (parse_frac s2) as [[[f fc] s3]|] eqn:E2; [|discriminate].
    destruct (parse_exp s3) as [[e s4]|] eqn:E3; [|discriminate].
    inversion E; subst.
    apply parse_int_shrinks in E1. apply parse_frac_length in E2.
    apply parse_exp_length in E3. lia. }
  destruct s as [|c s']; [apply (K false "" (le_n _) H)|].
  destruct (c =? "-")%char; [apply (K true s'); [simpl; lia|exact H]|].
  apply (K false (String c s') (le_n _) H).
Qed.

Lemma strip_prefix_length (p s r : string) :
  strip_prefix p s = Some r -> String.length r + String.length p = String.length s.
Proof.
  revert s. induction p as [|a p IH]; intros s H; simpl in H.
  - inversion H; subst. simpl. lia.
  - destruct s as [|b s]; [discriminate|].
    destruct (a =? b)%char; [|discriminate]. apply IH in H. simpl. lia.
Qed.

Lemma value_body_shrinks (pe : ElementsParser) (pm : MembersParser) :
  shrinks pe -> shrinks pm -> shrinks (value_body pe pm).
Proof.
  intros He Hm s a r H. unfold value_body in H.
  destruct (skip_ws s) as [|c t] eqn:E; [discriminate|].
  pose proof (skip_ws_cons s c t E) as L.
  destruct (c =? "{")%char.
  { destruct (skip_ws t) as [|d t'] eqn:E'; [discriminate|].
    pose proof (skip_ws_cons t d t' E') as L'.
    destruct (d =? "}")%char; [inversion H; subst; lia|].
    destruct (pm t) as [[ps rest]|] eqn:P; [|discriminate].
    inversion H; subst. apply Hm in P. lia. }
  destruct (c =? "[")%char.
  { destruct (skip_ws t) as [|d t'] eqn:E'; [discriminate|].
    pose proof (skip_ws_cons t d t' E') as L'.
    destruct (d =? "]")%char; [inversion H; subst; lia|].
    destruct (pe t) as [[vs rest]|] eqn:P; [|discriminate].
    inversion H; subst. apply He in P. lia. }
  destruct (c =? dquote)%char.
  { destruct (parse_chars t) as [[str rest]|] eqn:P; [|discriminate].
    inversion H; subst. apply parse_chars_shrinks in P. lia. }
  assert (K : forall (w : JSValue) p,
            option_map (fun rest => (w, rest)) (strip_prefix p (String c t)) = Some (a, r) ->
            p <> "" -> String.length r < String.length s).
  { intros w p Hp Hne. destruct (strip_prefix p (String c t)) as [rest|] eqn:P; [|discriminate].
    inversion Hp; subst. apply strip_prefix_length in P.
    destruct p; [contradiction|]. simpl in *. lia. }
  destruct (c =? "t")%char; [apply (K _ _ H); discriminate|].
  destruct (c =? "f")%char; [apply (K _ _ H); discriminate|].
  destruct (c =? "n")%char; [apply (K _ _ H); discriminate|].
  destruct (parse_number (String c t)) as [[x rest]|] eqn:P; [|discriminate].
  inversion H; subst. apply parse_number_shrinks in P. simpl in *. lia.
Qed.

Lemma elements_body_shrinks (pv : ValueParser) (pe : ElementsParser) :
  shrinks pv -> shrinks pe -> shrinks (elements_body pv pe).
Proof.
  intros Hv He s a r H. unfold elements_body in H.
  destruct (pv s) as [[v t]|] eqn:P; [|discriminate]. apply Hv in P.
  destruct (skip_ws t) as [|c t'] eqn:E; [discriminate|].
  pose proof (skip_ws_cons t c t' E) as L.
  destruct (c =? ",")%char.
  - destruct (pe t') as [[vs rest]|] eqn:Q; [|discriminate].
    inversion H; subst. apply He in Q. lia.
  - destruct (c =? "]")%char; [|discriminate]. inversion H; subst. lia.
Qed.

Lemma members_body_shrinks (pv : ValueParser) (pm : MembersParser) :
  shrinks pv -> shrinks pm -> shrinks (members_body pv pm).
Proof.
  intros Hv Hm s a r H. unfold members_body in H.
  destruct (skip_ws s) as [|q t] eqn:E; [discriminate|].
  pose proof (skip_ws_cons s q t E) as L.
  destruct (q =? dquote)%char; [|discriminate].
  destruct (parse_chars t) as [[key r1]|] eqn:P1; [|discriminate].
  apply parse_chars_shrinks in P1.
  destruct (skip_ws r1) as [|c r2] eqn:E1; [discriminate|].
  pose proof (skip_ws_cons r1 c r2 E1) as L1.
  destruct (c =? ":")%char; [|discriminate].
  destruct (pv r2) as [[v r3]|] eqn:P2; [|discriminate]. apply Hv in P2.
  destruct (skip_ws r3) as [|d r4] eqn:E3; [discriminate|].
  pose proof (skip_ws_cons r3 d r4 E3) as L3.
  destruct (d =? ",")%char.
  - destruct (pm r4) as [[ps rest]|] eqn:Q; [|discriminate].
    inversion H; subst. apply Hm in Q. lia.
  - destruct (d =? "}")%char; [|discriminate]. inversion H; subst. lia.
Qed.

Lemma parsers_shrink (fuel : nat) :
  shrinks (parse_value fuel) /\ shrinks (parse_elements fuel) /\ shrinks (parse_members fuel).
Proof.
  induction fuel as [|f (IHv & IHe & IHm)].
  - repeat split; intros s a r H; discriminate.
  - split; [|split].
    + apply (value_body_shrinks _ _ IHe IHm).
    + apply (elements_body_shrinks _ _ IHv IHe).
    + apply (members_body_shrinks _ _ IHv IHm).
Qed.

(** Two parsers of a production agree on a text when the parsers they call
    agree on the shorter texts. *)
Lemma value_body_ext (pe pe' : ElementsParser) (pm pm' : MembersParser) (s : string) :
  (forall r, String.length r < String.length s -> pe r = pe' r) ->
  (forall r, String.length r < String.length s -> pm r = pm' r) ->
  value_body pe pm s = value_body pe' pm' s.
Proof.
  intros He Hm. unfold value_body.
  destruct (skip_ws s) as [|c t] eqn:E; [reflexivity|].
  pose proof (skip_ws_cons s c t E) as L.
  rewrite (He t L), (Hm t L). reflexivity.
Qed.

Lemma elements_body_ext (pv pv' : ValueParser) (pe pe' : ElementsParser) (s : string) :
  shrinks pv -> pv s = pv' s ->
  (forall r, String.length r < String.length s -> pe r = pe' r) ->
  elements_body pv pe s = elements_body pv' pe' s.
Proof.
  intros Hs Hv He. unfold elements_body. rewrite <- Hv.
  destruct (pv s) as [[v t]|] eqn:P; [|reflexivity]. apply Hs in P.
  destruct (skip_ws t) as [|c t'] eqn:E; [reflexivity|].
  pose proof (skip_ws_cons t c t' E) as L.
  rewrite (He t') by lia. reflexivity.
Qed.

Lemma members_body_ext (pv pv' : ValueParser) (pm pm' : MembersParser) (s : string) :
  shrinks pv ->
  (forall r, String.length r < String.length s -> pv r = pv' r) ->
  (forall r, String.length r < String.length s -> pm r = pm' r) ->
  members_body pv pm s = members_body pv' pm' s.
Proof.
  intros Hs Hv Hm. unfold members_body.
  destruct (skip_ws s) as [|q t] eqn:E; [reflexivity|].
  pose proof (skip_ws_cons s q t E) as L.
  destruct (q =? dquote)%char; [|reflexivity].
  destruct (parse_chars t) as [[key r1]|] eqn:P1; [|reflexivity].
  apply parse_chars_shrinks in P1.
  destruct (skip_ws r1) as [|c r2] eqn:E1; [reflexivity|].
  pose proof (skip_ws_cons r1 c r2 E1) as L1.
  destruct (c =? ":")%char; [|reflexivity].
  rewrite <- (Hv r2) by lia.
  destruct (pv r2) as [[v r3]|] eqn:P2; [|reflexivity]. apply Hs in P2.
  destruct (skip_ws r3) as [|d r4] eqn:E3; [reflexivity|].
  pose proof (skip_ws_cons r3 d r4 E3) as L3.
  rewrite (Hm r4) by lia. reflexivity.
Qed.

(** One more unit of fuel changes nothing once the fuel exceeds twice the
    length of the text. *)
Lemma parsers_step (fuel : nat) :
  (forall s, 2 * String.length s + 1 <= fuel -> parse_value fuel s = parse_value (S fuel) s) /\
  (forall s, 2 * String.length s + 2 <= fuel ->
     parse_elements fuel s = parse_elements (S fuel) s) /\
  (forall s, 2 * String.length s + 2 <= fuel ->
     parse_members fuel s = parse_members (S fuel) s).
Proof.
  induction fuel as [|f (IHv & IHe & IHm)].
  - repeat split; intros s L; lia.
  - destruct (parsers_shrink f) as (Sv & _ & _).
    split; [|split]; intros s L.
    + change (value_body (fun r => parse_elements f r) (fun r => parse_members f r) s
              = value_body (fun r => parse_elements (S f) r)
                  (fun r => parse_members (S f) r) s).
      apply value_body_ext; intros r Lr; [apply IHe|apply IHm]; lia.
    + change (elements_body (fun r => parse_value f r) (fun r => parse_elements f r) s
              = elements_body (fun r => parse_value (S f) r)
                  (fun r => parse_elements (S f) r) s).
      apply elements_body_ext; [exact Sv|apply IHv; lia|].
      intros r Lr. apply IHe. lia.
    + change (members_body (fun r => parse_value f r) (fun r => parse_members f r) s
              = members_body (fun r => parse_value (S f) r)
                  (fun r => parse_members (S f) r) s).
      apply members_body_ext; [exact Sv| |]; intros r Lr; [apply IHv|apply IHm]; lia.
Qed.

(** The fuel of [JSON_parse] is enough: more fuel gives the same outcome. *)
Lemma parse_value_stable (s : string) (extra : nat) :
  parse_value (2 * String.length s + 2 + extra) s = parse_value (2 * String.length s + 2) s.
Proof.
  induction extra as [|k IH]; [rewrite Nat.add_0_r; reflexivity|].
  rewrite <- IH. rewrite Nat.add_succ_r. symmetry.
  apply (proj1 (parsers_step (2 * String.length s + 2 + k))). lia.
Qed.

End Parser.

(** ** The upload percentage *)

Section Percent.
Import Float64 App.
Local Open Scope Q_scope.

Lemma Math_round_mono (x y : Q) : x <= y -> (Math_round x <= Math_round y)%Z.
Proof. intros H. unfold Math_round. apply Qfloor_resp_le. lra. Qed.

Lemma Math_round_Z (z : Z) : Math_round (inject_Z z) = z.
Proof.
  unfold Math_round.
  assert (H1 : (z <= Qfloor (inject_Z z + (1 # 2)))%Z).
  { rewrite <- (Qfloor_Z z) at 1. apply Qfloor_resp_le. lra. }
  pose proof (Qfloor_le (inject_Z z + (1 # 2))) as H2.
  destruct (Z_le_gt_dec (Qfloor (inject_Z z + (1 # 2))) z) as [H|H]; [lia|exfalso].
  assert (H3 : (z + 1 <= Qfloor (inject_Z z + (1 # 2)))%Z) by lia.
  rewrite Zle_Qle in H3. rewrite inject_Z_plus in H3. change (inject_Z 1) with 1 in H3. lra.
Qed.

Lemma quotient_nonneg (l t : N) : 0 <= inject_Z (Z.of_N l) / inject_Z (Z.of_N t).
Proof.
  apply Qmult_le_0_compat.
  - change 0 with (inject_Z 0). rewrite <- Zle_Qle. lia.
  - apply Qinv_le_0_compat. change 0 with (inject_Z 0). rewrite <- Zle_Qle. lia.
Qed.

Lemma quotient_mono (l1 l2 t : N) : (l1 <= l2)%N ->
  inject_Z (Z.of_N l1) / inject_Z (Z.of_N t) <= inject_Z (Z.of_N l2) / inject_Z (Z.of_N t).
Proof.
  intros H. apply Qmult_le_compat_r.
  - rewrite <- Zle_Qle. lia.
  - apply Qinv_le_0_compat. change 0 with (inject_Z 0). rewrite <- Zle_Qle. lia.
Qed.

Lemma fdiv_nonneg (l t : N) : 0 <= fdiv (inject_Z (Z.of_N l)) (inject_Z (Z.of_N t)).
Proof. apply rnd_nonneg, quotient_nonneg. Qed.

Lemma scaled_mono (x y : Q) : 0 <= x -> x <= y -> fmul x 100 <= fmul y 100.
Proof. intros Hx Hxy. apply rnd_mono; lra. Qed.

Lemma percent_bounds (l t : N) : (0 <= percent l t <= 100)%Z.
Proof.
  unfold percent. split; [|apply Z.le_min_l].
  apply Z.min_glb; [lia|].
  rewrite <- (Math_round_Z 0). apply Math_round_mono.
  apply rnd_nonneg. pose proof (fdiv_nonneg l t). lra.
Qed.

Lemma percent_mono (l1 l2 t : N) : (l1 <= l2)%N -> (percent l1 t <= percent l2 t)%Z.
Proof.
  intros H. unfold percent. apply Z.min_le_compat_l. apply Math_round_mono.
  apply scaled_mono; [apply fdiv_nonneg|].
  apply rnd_mono; [apply quotient_nonneg|apply quotient_mono, H].
Qed.

Lemma fmul_hundred : fmul 1 100 = 100.
Proof. vm_compute. reflexivity. Qed.

Lemma percent_full (l t : N) : (0 < t)%N -> (t <= l)%N -> percent l t = 100%Z.
Proof.
  intros Ht Hl. unfold percent. apply Z.min_l.
  assert (H100 : Math_round (fmul 1 100) = 100%Z)
    by (rewrite fmul_hundred; apply (Math_round_Z 100)).
  rewrite <- H100. apply Math_round_mono. apply scaled_mono; [discriminate|].
  change 1%Q with (rnd 1) at 1. unfold fdiv. apply rnd_mono; [discriminate|].
  apply Qle_shift_div_l.
  - change 0%Q with (inject_Z 0). rewrite <- Zlt_Qlt. lia.
  - rewrite Qmult_1_l. rewrite <- Zle_Qle. lia.
Qed.

Lemma percent_none (t : N) : percent 0 t = 0%Z.
Proof.
  unfold percent, fdiv, fmul.
  assert (E : rnd (inject_Z (Z.of_N 0) / inject_Z (Z.of_N t)) = 0%Q).
  { unfold rnd at 1. rewrite (Qred_complete _ 0%Q).
    - vm_compute. reflexivity.
    - unfold Qdiv. apply Qmult_0_l. }
  rewrite E. vm_compute. reflexivity.
Qed.

Lemma percent_sorted (t : N) (ls : list N) :
  Sorted N.le ls -> Sorted Z.le (map (fun l => percent l t) ls).
Proof.
  induction 1 as [|a l Hs IH Hd]; simpl; constructor; auto.
  destruct Hd as [|b l Hab]; simpl; constructor. apply percent_mono, Hab.
Qed.

(** *** The published percentage against the exact one *)

Lemma floor_unique (z : Q) (k : Z) : inject_Z k <= z -> z < inject_Z k + 1 -> Qfloor z = k.
Proof.
  intros H1 H2.
  assert (A : (k <= Qfloor z)%Z).
  { rewrite <- (Qfloor_Z k). apply Qfloor_resp_le. exact H1. }
  pose proof (Qfloor_le z) as H3.
  destruct (Z_le_gt_dec (Qfloor z) k) as [H|H]; [lia|exfalso].
  assert (B : (k + 1 <= Qfloor z)%Z) by lia.
  rewrite Zle_Qle in B. rewrite inject_Z_plus in B. change (inject_Z 1) with 1 in B. lra.
Qed.

Lemma ratio_gap (a d : Q) : 0 < d -> d <= 35184372088832 -> 1 <= a * d ->
  (1 # 35184372088832) <= a.
Proof.
  intros Hd Hc H. destruct (Qlt_le_dec a (1 # 35184372088832)) as [Lt|Le]; [exfalso|exact Le].
  pose proof (Qmult_lt_compat_r _ _ d Hd Lt) as M. lra.
Qed.

(** Two roundings move the scaled quotient by less than [2^-45]. *)
Lemma scaled_near (l t : N) : (0 < l <= t)%N -> (t <= 17592186044416)%N ->
  let x := inject_Z (Z.of_N l) / inject_Z (Z.of_N t) in
  let p := fmul (fdiv (inject_Z (Z.of_N l)) (inject_Z (Z.of_N t))) 100 in
  x * 100 - (200 # 9007199254740992) <= p /\ p <= x * 100 + (200 # 9007199254740992).
Proof.
  intros [Hl Hlt] Ht x p.
  assert (L1 : 1 <= inject_Z (Z.of_N l)) by (change 1 with (inject_Z 1); rewrite <- Zle_Qle; lia).
  assert (LT : inject_Z (Z.of_N l) <= inject_Z (Z.of_N t)) by (rewrite <- Zle_Qle; lia).
  assert (T1 : inject_Z (Z.of_N t) <= 17592186044416).
  { change 17592186044416 with (inject_Z 17592186044416). rewrite <- Zle_Qle. lia. }
  assert (Ex : x * inject_Z (Z.of_N t) == inject_Z (Z.of_N l)) by (unfold x; field; lra).
  set (L := inject_Z (Z.of_N l)) in *. set (T := inject_Z (Z.of_N t)) in *.
  assert (X0 : (1 # 17592186044416) <= x).
  { apply Qle_shift_div_l; [lra|]. nra. }
  assert (X1 : x <= 1).
  { apply Qle_shift_div_r; lra. }
  assert (Nx : (-1022 <= floor_log2 (Qred x))%Z).
  { apply (normal_range (1 # 17592186044416)); [reflexivity|vm_compute; discriminate|exact X0]. }
  destruct (rnd_near x) as [Q1 Q2]; [lra|exact Nx|].
  assert (Q3 : rnd x <= 1).
  { apply Qle_trans with (rnd 1); [apply rnd_mono; lra|vm_compute; discriminate]. }
  assert (Ny : (-1022 <= floor_log2 (Qred (rnd x * 100)))%Z).
  { apply (normal_range (1 # 17592186044416)); [reflexivity|vm_compute; discriminate|lra]. }
  destruct (rnd_near (rnd x * 100)) as [P1 P2]; [lra|exact Ny|].
  change p with (rnd (rnd x * 100)).
  set (q := rnd x) in *. set (r := rnd (q * 100)) in *.
  split; lra.
Qed.

Lemma exact_percent_full (l t : N) : (0 < t)%N -> (t <= l)%N -> exact_percent l t = 100%Z.
Proof.
  intros Ht Hl. unfold exact_percent.
  assert (E : Qmin 1 (inject_Z (Z.of_N l) / inject_Z (Z.of_N t)) == 1).
  { apply Q.min_l. apply Qle_shift_div_l.
    - change 0 with (inject_Z 0). rewrite <- Zlt_Qlt. lia.
    - rewrite Qmult_1_l. rewrite <- Zle_Qle. lia. }
  rewrite E. reflexivity.
Qed.

Lemma exact_percent_none (t : N) : exact_percent 0 t = 0%Z.
Proof.
  unfold exact_percent.
  assert (E : Qmin 1 (inject_Z (Z.of_N 0) / inject_Z (Z.of_N t)) == 0).
  { assert (Z0 : inject_Z (Z.of_N 0) / inject_Z (Z.of_N t) == 0) by (unfold Qdiv; apply Qmult_0_l).
    rewrite Z0. reflexivity. }
  rewrite E. reflexivity.
Qed.

(** Up to a total of [2^44] bytes the published percentage is the exact one,
    unless the exact value lies half-way between two integers; there it is
    the exact one or one less. *)
Lemma percent_against_exact (l t : N) : (0 < t <= 17592186044416)%N ->
  (exact_percent l t - 1 <= percent l t <= exact_percent l t)%Z /\
  (half_way l t = false -> percent l t = exact_percent l t).
Proof.
  intros [Ht0 Ht].
  destruct (N.le_gt_cases t l) as [Hge|Hlt].
  { rewrite (percent_full l t Ht0 Hge), (exact_percent_full l t Ht0 Hge). split; [lia|auto]. }
  destruct (N.eq_dec l 0) as [H0|H0].
  { subst l. rewrite percent_none, exact_percent_none. split; [lia|auto]. }
  destruct (scaled_near l t) as [S1 S2]; [lia|exact Ht|].
  unfold half_way, exact_percent, percent, Math_round.
  set (Lz := Z.of_N l) in *. set (Tz := Z.of_N t) in *.
  assert (Lz1 : (1 <= Lz < Tz)%Z) by (unfold Lz, Tz; lia).
  assert (Tz1 : (Tz <= 17592186044416)%Z) by (unfold Tz; lia).
  assert (L1 : 1 <= inject_Z Lz) by (change 1 with (inject_Z 1); rewrite <- Zle_Qle; lia).
  assert (LT : inject_Z Lz <= inject_Z Tz) by (rewrite <- Zle_Qle; lia).
  assert (T1 : inject_Z Tz <= 17592186044416).
  { change 17592186044416 with (inject_Z 17592186044416). rewrite <- Zle_Qle. lia. }
  assert (Ex : inject_Z Lz / inject_Z Tz * inject_Z Tz == inject_Z Lz) by (field; lra).
  assert (X1 : inject_Z Lz / inject_Z Tz <= 1) by (apply Qle_shift_div_r; lra).
  assert (Em : Qmin 1 (inject_Z Lz / inject_Z Tz) == inject_Z Lz / inject_Z Tz)
    by (apply Q.min_r; exact X1).
  set (X := Qmin 1 (inject_Z Lz / inject_Z Tz) * 100 + (1 # 2)) in *.
  set (p := fmul (fdiv (inject_Z Lz) (inject_Z Tz)) 100) in *.
  set (K := Qfloor X).
  pose proof (Qfloor_le X) as K1. pose proof (Qlt_floor X) as K2. fold K in K1, K2.
  rewrite inject_Z_plus in K2. change (inject_Z 1) with 1 in K2.
  assert (EX : X == inject_Z Lz / inject_Z Tz * 100 + (1 # 2)) by (unfold X; rewrite Em; reflexivity).
  assert (XD : X * (2 * inject_Z Tz) == 200 * inject_Z Lz + inject_Z Tz).
  { rewrite EX. field. lra. }
  assert (K100 : (K <= 100)%Z).
  { destruct (Z_le_gt_dec K 100) as [H|H]; [exact H|exfalso].
    assert (B : (101 <= K)%Z) by lia. rewrite Zle_Qle in B.
    change (inject_Z 101) with 101 in B. lra. }
  set (x := inject_Z Lz / inject_Z Tz) in *. set (L := inject_Z Lz) in *.
  set (T := inject_Z Tz) in *. set (k := inject_Z K) in *.
  destruct (Qeq_dec X k) as [Tie|NoTie].
  - assert (B : Qeq_bool X k = true) by (apply Qeq_bool_iff; exact Tie).
    split; [|intros F; rewrite F in B; discriminate].
    destruct (Qlt_le_dec (p + (1 # 2)) k) as [Lo|Hi].
    + assert (F : Qfloor (p + (1 # 2)) = (K - 1)%Z).
      { assert (Km : inject_Z (K - 1) == k - 1).
        { unfold Z.sub. rewrite inject_Z_plus, inject_Z_opp. reflexivity. }
        apply floor_unique; rewrite Km; lra. }
      rewrite F. lia.
    + assert (F : Qfloor (p + (1 # 2)) = K).
      { apply floor_unique; fold k; lra. }
      rewrite F. lia.
  - assert (F : Qfloor (p + (1 # 2)) = K).
    { assert (Z1 : (K * (2 * Tz) <= 200 * Lz + Tz)%Z).
      { rewrite Zle_Qle. rewrite inject_Z_plus, !inject_Z_mult.
        change (inject_Z 2) with 2. change (inject_Z 200) with 200.
        fold k L T. nra. }
      assert (Z2 : (200 * Lz + Tz < (K + 1) * (2 * Tz))%Z).
      { rewrite Zlt_Qlt. rewrite inject_Z_plus, !inject_Z_mult, inject_Z_plus.
        change (inject_Z 2) with 2. change (inject_Z 200) with 200.
        change (inject_Z 1) with 1. fold k L T. nra. }
      assert (Z3 : (K * (2 * Tz) <> 200 * Lz + Tz)%Z).
      { intros E. apply NoTie.
        assert (E' : inject_Z (K * (2 * Tz)) == inject_Z (200 * Lz + Tz)) by (rewrite E; reflexivity).
        rewrite inject_Z_plus, !inject_Z_mult in E'.
        change (inject_Z 2) with 2 in E'. change (inject_Z 200) with 200 in E'.
        fold k L T in E'.
        apply (Qmult_inj_r X k (2 * T)); [lra|]. rewrite XD, E'. reflexivity. }
      assert (Z4 : (K * (2 * Tz) + 1 <= 200 * Lz + Tz)%Z) by lia.
      assert (Z5 : (200 * Lz + Tz + 1 <= (K + 1) * (2 * Tz))%Z) by lia.
      rewrite Zle_Qle in Z4, Z5.
      rewrite !inject_Z_plus, !inject_Z_mult, ?inject_Z_plus in Z4, Z5.
      rewrite ?inject_Z_plus in Z5.
      change (inject_Z 2) with 2 in Z4, Z5. change (inject_Z 200) with 200 in Z4, Z5.
      change (inject_Z 1) with 1 in Z4, Z5. fold k L T in Z4, Z5.
      assert (D0 : 0 < 2 * T) by lra.
      assert (D1 : 2 * T <= 35184372088832) by lra.
      assert (G1 : 1 <= (X - k) * (2 * T)) by lra.
      assert (G2 : 1 <= (k + 1 - X) * (2 * T)) by lra.
      apply (ratio_gap _ _ D0 D1) in G1. apply (ratio_gap _ _ D0 D1) in G2.
      apply floor_unique; fold k; lra. }
    rewrite F. split; [lia|]. intros _. lia.
Qed.

End Percent.

(** ** Lists *)

Section Lists.
Context {A B : Type}.

Lemma NoDup_map_filter (keep : A -> bool) (key : A -> B) (xs : list A) :
  NoDup (map key xs) -> NoDup (map key (filter keep xs)).
Proof.
  intros Hd. induction xs as [|a xs IH]; simpl; [constructor|].
  simpl in Hd. apply NoDup_cons_iff in Hd. destruct Hd as [Hn Hd].
  destruct (keep a); simpl; auto.
  constructor; auto. intros Hin. apply Hn.
  apply in_map_iff in Hin. destruct Hin as [y [Hy Hin]].
  apply filter_In in Hin. apply in_map_iff. exists y. tauto.
Qed.

Lemma NoDup_map_snoc (f : A -> B) (l : list A) (a : A) :
  NoDup (map f l) -> ~ In (f a) (map f l) -> NoDup (map f (l ++ [a])).
Proof.
  intros Hd Hn. rewrite map_app. simpl.
  apply NoDup_rev in Hd. rewrite <- (rev_involutive (map f l ++ [f a])).
  apply NoDup_rev. rewrite rev_app_distr. simpl. constructor; auto.
  rewrite <- in_rev. exact Hn.
Qed.

Lemma find_filter (p q : A -> bool) (l : list A) (t : A) :
  find p l = Some t -> q t = true -> find p (filter q l) = Some t.
Proof.
  induction l as [|a l IH]; simpl; [discriminate|].
  destruct (p a) eqn:Pa; intros H Q.
  - inversion H; subst. rewrite Q. simpl. rewrite Pa. reflexivity.
  - destruct (q a); simpl; [rewrite Pa|]; auto.
Qed.

Lemma find_app_l (p : A -> bool) (l r : list A) (t : A) :
  find p l = Some t -> find p (l ++ r) = Some t.
Proof.
  induction l as [|a l IH]; simpl; [discriminate|].
  destruct (p a); auto.
Qed.

Lemma find_app_r (p : A -> bool) (l r : list A) :
  (forall y, In y l -> p y = false) -> find p (l ++ r) = find p r.
Proof.
  induction l as [|a l IH]; simpl; intros H; [reflexivity|].
  rewrite (H a) by auto. apply IH. auto.
Qed.

End Lists.

(** ** Invariants of the event loop *)

Section Invariants.
Import JS App.
Local Open Scope string_scope.

Lemma find_upload_In (u : UploadId) (s : State) (x : Upload) :
  find_upload u s = Some x -> In x (uploads s) /\ upload_id x = u.
Proof.
  unfold find_upload. intros H. apply find_some in H. destruct H as [Hin Heq].
  apply Nat.eqb_eq in Heq. auto.
Qed.

Lemma removed_upload (u : UploadId) (us : list Upload) (x : Upload) :
  In x (filter (fun y => negb (Nat.eqb (upload_id y) u)) us) -> upload_id x <> u.
Proof.
  intros H. apply filter_In in H. destruct H as [_ H].
  apply negb_true_iff in H. apply Nat.eqb_neq in H. exact H.
Qed.

Lemma find_upload_removed (u : UploadId) (s : State) :
  find_upload u (remove_upload u s) = None.
Proof.
  unfold find_upload; cbn.
  destruct (find _ _) as [y|] eqn:E; [|reflexivity].
  apply find_some in E. destruct E as [E1 E2].
  apply removed_upload in E1. apply Nat.eqb_eq in E2. contradiction.
Qed.

Lemma pending_clearTimeout (id : TimerId) (s : State) : pending id (clearTimeout id s) = None.
Proof.
  unfold pending; cbn. destruct (find _ _) as [t|] eqn:E; [|reflexivity].
  apply find_some in E. destruct E as [E1 E2]. apply filter_In in E1.
  destruct E1 as [_ E1]. rewrite E2 in E1. discriminate.
Qed.

Lemma clear_response_timeout_ref (s : State) :
  responseTimeoutRef (clear_response_timeout s) = None.
Proof.
  unfold clear_response_timeout. destruct (responseTimeoutRef s) eqn:E; [reflexivity|exact E].
Qed.

Lemma clear_response_timeout_pending (s : State) (id : TimerId) :
  responseTimeoutRef s = Some id -> pending id (clear_response_timeout s) = None.
Proof.
  intros E. unfold clear_response_timeout. rewrite E. apply (pending_clearTimeout id s).
Qed.

Lemma run_app (s : State) (a b : list Event) :
  run s (a ++ b)%list = match run s a with Some s1 => run s1 b | None => None end.
Proof.
  revert s. induction a as [|e a IH]; intros s; simpl; [reflexivity|].
  destruct (step s e); [apply IH|reflexivity].
Qed.

(** The handler of an inbound frame preserves whatever the clearing of the
    timer preserves: the rest of it writes the status line and the result
    only. *)
Lemma ws_onmessage_cases (data : string) (s : State) :
  let s1 := clear_response_timeout s in
  ws_onmessage data s = s1 \/
  ws_onmessage data s = setMessage "Completed" s1 \/
  exists t, ws_onmessage data s = setNumberPlate t (setMessage "Completed" s1).
Proof.
  unfold ws_onmessage. cbv zeta.
  destruct (JSON_parse data) as [d|]; [|auto].
  destruct (Get d "message") as [m|]; [|auto].
  destruct (template_value m) as [t|]; eauto.
Qed.

(** *** Well-formed states *)

Section Bookkeeping.
Variables (ts : list Timer) (nt : TimerId) (us : list Upload) (nu : UploadId) (ob : list Sent).

Lemma wf_of_clear (p : Timer -> bool) :
  wf_of ts nt us nu ob -> wf_of (filter p ts) nt us nu ob.
Proof.
  intros (Wt & Wu & Wo & Wd & Ws). split; [|split; [|split; [|split]]]; auto.
  - intros t Hin. apply Wt. apply filter_In in Hin. tauto.
  - intros x Hx. split; [apply (Ws x Hx)|].
    intros t Ht. apply filter_In in Ht. apply (Ws x Hx). tauto.
Qed.

Lemma wf_of_remove (p : Upload -> bool) :
  wf_of ts nt us nu ob -> wf_of ts nt (filter p us) nu ob.
Proof.
  intros (Wt & Wu & Wo & Wd & Ws). split; [|split; [|split; [|split]]]; auto.
  - intros x Hx. apply filter_In in Hx. apply Wu. tauto.
  - apply NoDup_map_filter, Wd.
  - intros x Hx. apply filter_In in Hx. apply (Ws x). tauto.
Qed.

Lemma wf_of_upload (img : File) (w : option WebSocket) :
  wf_of ts nt us nu ob ->
  wf_of ts nt (us ++ [{| upload_id := nu; upload_image := img; upload_ws := w |}]) (S nu) ob.
Proof.
  intros (Wt & Wu & Wo & Wd & Ws). split; [|split; [|split; [|split]]].
  - intros t Ht. apply Wt in Ht. lia.
  - intros x Hx. apply in_app_or in Hx. destruct Hx as [Hx|[Hx|[]]].
    + apply Wu in Hx. lia.
    + subst x. cbn. lia.
  - intros m Hm. apply Wo in Hm. lia.
  - apply NoDup_map_snoc; auto. cbn. intros Hin. apply in_map_iff in Hin.
    destruct Hin as [y [Hy Hin]]. apply Wu in Hin. lia.
  - intros x Hx. apply in_app_or in Hx. destruct Hx as [Hx|[Hx|[]]].
    + apply (Ws x Hx).
    + subst x. cbn. split.
      * intros m Hm. apply Wo in Hm. lia.
      * intros t Ht. apply Wt in Ht. lia.
Qed.

Lemma wf_of_send (u : UploadId) (text : string) :
  u < nu -> (forall x, In x us -> upload_id x <> u) ->
  wf_of ts nt us nu ob -> wf_of ts nt us nu (ob ++ [{| sent_by := u; frame := text |}]).
Proof.
  intros Hu Hn (Wt & Wu & Wo & Wd & Ws). split; [|split; [|split; [|split]]]; auto.
  - intros m Hm. apply in_app_or in Hm. destruct Hm as [Hm|[Hm|[]]]; [auto|subst m; exact Hu].
  - intros x Hx. split; [|apply (Ws x Hx)].
    intros m Hm. apply in_app_or in Hm. destruct Hm as [Hm|[Hm|[]]].
    + apply (Ws x Hx), Hm.
    + subst m. cbn. intros E. apply (Hn x Hx). auto.
Qed.

Lemma wf_of_timer (u : UploadId) (d : N) :
  u < nu -> (forall x, In x us -> upload_id x <> u) ->
  wf_of ts nt us nu ob ->
  wf_of (ts ++ [{| timer_id := nt; due := d; timer_owner := u |}]) (Pos.succ nt) us nu ob.
Proof.
  intros Hu Hn (Wt & Wu & Wo & Wd & Ws). split; [|split; [|split; [|split]]]; auto.
  - intros t Ht. apply in_app_or in Ht. destruct Ht as [Ht|[Ht|[]]].
    + apply Wt in Ht. lia.
    + subst t. cbn. lia.
  - intros x Hx. split; [apply (Ws x Hx)|].
    intros t Ht. apply in_app_or in Ht. destruct Ht as [Ht|[Ht|[]]].
    + apply (Ws x Hx), Ht.
    + subst t. cbn. intros E. apply (Hn x Hx). auto.
Qed.

(** *** Sessions that are over *)

Variable v : UploadId.

Lemma over_of_clear (p : Timer -> bool) :
  over_of v ts us nu ob -> over_of v (filter p ts) us nu ob.
Proof.
  intros (Hu & Hn & Hm & Ht). repeat split; auto.
  intros t Hin. apply filter_In in Hin. apply Ht. tauto.
Qed.

Lemma over_of_remove (p : Upload -> bool) :
  over_of v ts us nu ob -> over_of v ts (filter p us) nu ob.
Proof.
  intros (Hu & Hn & Hs). repeat split; auto; try apply Hs.
  intros x Hin. apply filter_In in Hin. apply Hn. tauto.
Qed.

Lemma over_of_upload (img : File) (w : option WebSocket) :
  over_of v ts us nu ob ->
  over_of v ts (us ++ [{| upload_id := nu; upload_image := img; upload_ws := w |}]) (S nu) ob.
Proof.
  intros (Hu & Hn & Hs). repeat split; auto; try apply Hs.
  intros x Hin. apply in_app_or in Hin. destruct Hin as [Hin|[Hin|[]]].
  - apply Hn, Hin.
  - subst x. cbn. lia.
Qed.

Lemma over_of_send (u : UploadId) (text : string) :
  u <> v -> over_of v ts us nu ob ->
  over_of v ts us nu (ob ++ [{| sent_by := u; frame := text |}]).
Proof.
  intros Hv (Hu & Hn & Hm & Ht). repeat split; auto.
  intros m Hin. apply in_app_or in Hin. destruct Hin as [Hin|[Hin|[]]].
  - apply Hm, Hin.
  - subst m. exact Hv.
Qed.

Lemma over_of_timer (u : UploadId) (id : TimerId) (d : N) :
  u <> v -> over_of v ts us nu ob ->
  over_of v (ts ++ [{| timer_id := id; due := d; timer_owner := u |}]) us nu ob.
Proof.
  intros Hv (Hu & Hn & Hm & Ht). repeat split; auto.
  intros t Hin. apply in_app_or in Hin. destruct Hin as [Hin|[Hin|[]]].
  - apply Ht, Hin.
  - subst t. exact Hv.
Qed.

End Bookkeeping.

Lemma wf_init (e : Env) : wf (init e).
Proof.
  unfold wf, wf_of, silent_in; cbn. repeat split; try contradiction. constructor.
Qed.

Lemma wf_ws_onmessage (data : string) (s : State) : wf s -> wf (ws_onmessage data s).
Proof.
  intros W.
  assert (W1 : wf (clear_response_timeout s)).
  { unfold clear_response_timeout. destruct (responseTimeoutRef s); [|exact W].
    unfold wf; cbn. apply wf_of_clear, W. }
  destruct (ws_onmessage_cases data s) as [E|[E|[t E]]]; rewrite E; exact W1.
Qed.

Lemma wf_sendMessage (w : option WebSocket) (u : UploadId) (key : string) (s : State) :
  u < nextUpload s -> (forall x, In x (uploads s) -> upload_id x <> u) ->
  wf s -> wf (sendMessage w u key s).
Proof.
  intros Hu Hn W. unfold sendMessage.
  destruct w; [destruct (readyState s)|]; try exact W.
  unfold wf; cbn. apply wf_of_timer; auto. apply wf_of_send; auto.
Qed.

Lemma wf_step (s s' : State) (e : Event) : wf s -> step s e = Some s' -> wf s'.
Proof.
  intros W H. destruct e; cbn [step] in H.
  - destruct (ws s); inversion H; subst. exact W.
  - destruct (forallb _ _); inversion H; subst. exact W.
  - inversion H; subst. unfold processImage_begin.
    destruct (first_file files); [|exact W].
    unfold wf; cbn. apply wf_of_upload, W.
  - destruct (find_upload u s); inversion H; subst.
    unfold httpUploadProgress. destruct (_ <? _)%N; exact W.
  - destruct (find_upload u s) as [x|] eqn:F; inversion H; subst.
    apply find_upload_In in F. destruct F as [Fin Fid].
    cbn. rewrite Fid. apply wf_sendMessage; cbn.
    + destruct W as (_ & Wu & _). rewrite <- Fid. apply Wu, Fin.
    + apply removed_upload.
    + unfold wf; cbn. apply wf_of_remove, W.
  - destruct (find_upload u s) as [x|] eqn:F; inversion H; subst.
    cbn. unfold wf; cbn. apply wf_of_remove, W.
  - destruct (ws s); [destruct (readyState s)|]; inversion H; subst. exact W.
  - destruct (ws s); [destruct (readyState s)|]; inversion H; subst.
    apply wf_ws_onmessage, W.
  - destruct (ws s); inversion H; subst. exact W.
  - destruct (ws s); inversion H; subst. exact W.
  - destruct (pending id s) as [t|]; [|discriminate].
    destruct (_ <=? _)%N; inversion H; subst.
    unfold wf; cbn. apply wf_of_clear, W.
  - destruct (ws s); [destruct (readyState s)|]; inversion H; subst. exact W.
Qed.

Lemma wf_run (evs : list Event) (s s' : State) : wf s -> run s evs = Some s' -> wf s'.
Proof.
  revert s. induction evs as [|e evs IH]; simpl; intros s W H.
  - inversion H; subst; exact W.
  - destruct (step s e) as [s1|] eqn:E; [|discriminate].
    apply (IH s1); [apply (wf_step s s1 e W E)|exact H].
Qed.

Lemma reachable_wf (s : State) : reachable s -> wf s.
Proof. intros (e & evs & H). apply (wf_run evs (init e)); [apply wf_init|exact H]. Qed.

Lemma reachable_after (evs : list Event) :
  run (init Scenario.env0) evs <> None -> reachable (Scenario.after evs).
Proof.
  intros H. exists Scenario.env0, evs. unfold Scenario.after.
  destruct (run (init Scenario.env0) evs); [reflexivity|contradiction].
Qed.

Lemma over_ws_onmessage (u : UploadId) (data : string) (s : State) :
  over u s -> over u (ws_onmessage data s).
Proof.
  intros W.
  assert (W1 : over u (clear_response_timeout s)).
  { unfold clear_response_timeout. destruct (responseTimeoutRef s); [|exact W].
    unfold over; cbn. apply over_of_clear, W. }
  destruct (ws_onmessage_cases data s) as [E|[E|[t E]]]; rewrite E; exact W1.
Qed.

Lemma over_sendMessage (u v : UploadId) (w : option WebSocket) (key : string) (s : State) :
  v <> u -> over u s -> over u (sendMessage w v key s).
Proof.
  intros Hv W. unfold sendMessage.
  destruct w; [destruct (readyState s)|]; try exact W.
  unfold over; cbn. apply over_of_timer; auto. apply over_of_send; auto.
Qed.

Lemma over_step (u : UploadId) (s s' : State) (e : Event) :
  over u s -> step s e = Some s' -> over u s'.
Proof.
  intros W H. destruct e as [| |files|v p|v|v| | | | |id|]; cbn [step] in H.
  - destruct (ws s); inversion H; subst. exact W.
  - destruct (forallb _ _); inversion H; subst. exact W.
  - inversion H; subst. unfold processImage_begin.
    destruct (first_file files); [|exact W].
    unfold over; cbn. apply over_of_upload, W.
  - destruct (find_upload v s); inversion H; subst.
    unfold httpUploadProgress. destruct (_ <? _)%N; exact W.
  - destruct (find_upload v s) as [x|] eqn:F; inversion H; subst.
    apply find_upload_In in F. destruct F as [Fin Fid].
    cbn. apply over_sendMessage.
    + destruct W as (_ & Hn & _). apply Hn, Fin.
    + unfold over; cbn. apply over_of_remove, W.
  - destruct (find_upload v s) as [x|] eqn:F; inversion H; subst.
    cbn. unfold over; cbn. apply over_of_remove, W.
  - destruct (ws s); [destruct (readyState s)|]; inversion H; subst. exact W.
  - destruct (ws s); [destruct (readyState s)|]; inversion H; subst.
    apply over_ws_onmessage, W.
  - destruct (ws s); inversion H; subst. exact W.
  - destruct (ws s); inversion H; subst. exact W.
  - destruct (pending id s) as [t|]; [|discriminate].
    destruct (_ <=? _)%N; inversion H; subst.
    unfold over; cbn. apply over_of_clear, W.
  - destruct (ws s); [destruct (readyState s)|]; inversion H; subst. exact W.
Qed.

Lemma over_run (u : UploadId) (evs : list Event) (s s' : State) :
  over u s -> run s evs = Some s' -> over u s'.
Proof.
  revert s. induction evs as [|e evs IH]; simpl; intros s W H.
  - inversion H; subst; exact W.
  - destruct (step s e) as [s1|] eqn:E; [|discriminate].
    apply (IH s1); [apply (over_step u s s1 e W E)|exact H].
Qed.

(** An upload in flight of a well-formed state is over once it is removed. *)
Lemma over_removed (u : UploadId) (x : Upload) (s : State) :
  wf s -> find_upload u s = Some x -> over u (remove_upload u s).
Proof.
  intros (Wt & Wu & Wo & Wd & Ws) F. apply find_upload_In in F. destruct F as [Fin Fid].
  unfold over, over_of; cbn. split; [|split].
  - rewrite <- Fid. apply Wu, Fin.
  - apply removed_upload.
  - rewrite <- Fid. apply (Ws x Fin).
Qed.

(** *** Timers *)

Lemma spent_pending (id : TimerId) (s : State) : spent id s -> pending id s = None.
Proof.
  intros [H _]. unfold pending. destruct (find _ _) as [t|] eqn:E; [|reflexivity].
  apply find_some in E. destruct E as [E1 E2]. apply Pos.eqb_eq in E2.
  exfalso. apply (H t E1 E2).
Qed.

Lemma spent_clearTimeout (id j : TimerId) (s : State) : spent id s -> spent id (clearTimeout j s).
Proof.
  intros [W1 W2]. split; [|exact W2]. cbn.
  intros t Hin. apply filter_In in Hin. apply W1. tauto.
Qed.

Lemma spent_ws_onmessage (id : TimerId) (data : string) (s : State) :
  spent id s -> spent id (ws_onmessage data s).
Proof.
  intros W.
  assert (W1 : spent id (clear_response_timeout s)).
  { unfold clear_response_timeout. destruct (responseTimeoutRef s) as [j|]; [|exact W].
    apply (spent_clearTimeout id j s W). }
  destruct (ws_onmessage_cases data s) as [E|[E|[t E]]]; rewrite E; exact W1.
Qed.

Lemma spent_sendMessage (id : TimerId) (w : option WebSocket) (u : UploadId) (key : string)
    (s : State) : spent id s -> spent id (sendMessage w u key s).
Proof.
  intros W. unfold sendMessage.
  destruct w; [destruct (readyState s)|]; try exact W.
  destruct W as [W1 W2]. split; cbn.
  - intros t Hin. apply in_app_or in Hin. destruct Hin as [Hin|[Hin|[]]].
    + apply W1, Hin.
    + subst t. cbn. lia.
  - lia.
Qed.

(** A timer that is no longer pending never runs (again). *)
Lemma spent_step (id : TimerId) (s s' : State) (e : Event) :
  spent id s -> step s e = Some s' -> fired id e = false /\ spent id s'.
Proof.
  intros W H. destruct e as [| |files|v p|v|v| | | | |j|]; cbn [step] in H; cbn [fired].
  - destruct (ws s); inversion H; subst. split; [reflexivity|exact W].
  - destruct (forallb _ _); inversion H; subst. split; [reflexivity|exact W].
  - inversion H; subst. split; [reflexivity|]. unfold processImage_begin.
    destruct (first_file files); exact W.
  - destruct (find_upload v s); inversion H; subst. split; [reflexivity|].
    unfold httpUploadProgress. destruct (_ <? _)%N; exact W.
  - destruct (find_upload v s) as [x|]; inversion H; subst. split; [reflexivity|].
    cbn. apply spent_sendMessage. exact W.
  - destruct (find_upload v s) as [x|]; inversion H; subst. split; [reflexivity|exact W].
  - destruct (ws s); [destruct (readyState s)|]; inversion H; subst. split; [reflexivity|exact W].
  - destruct (ws s); [destruct (readyState s)|]; inversion H; subst. split; [reflexivity|].
    apply spent_ws_onmessage, W.
  - destruct (ws s); inversion H; subst. split; [reflexivity|exact W].
  - destruct (ws s); inversion H; subst. split; [reflexivity|exact W].
  - destruct (Pos.eqb_spec j id) as [E|NE].
    + subst j. rewrite (spent_pending id s W) in H. discriminate.
    + split; [reflexivity|].
      destruct (pending j s) as [t|]; [|discriminate].
      destruct (_ <=? _)%N; inversion H; subst.
      apply (spent_clearTimeout id j s W).
  - destruct (ws s); [destruct (readyState s)|]; inversion H; subst. split; [reflexivity|exact W].
Qed.

Lemma spent_run (id : TimerId) (evs : list Event) (s s' : State) :
  spent id s -> run s evs = Some s' -> existsb (fired id) evs = false.
Proof.
  revert s. induction evs as [|e evs IH]; simpl; intros s W H; [reflexivity|].
  destruct (step s e) as [s1|] eqn:E; [|discriminate].
  destruct (spent_step id s s1 e W E) as [F W1]. rewrite F. simpl.
  apply (IH s1 W1 H).
Qed.

Lemma armed_sendMessage (id : TimerId) (d : N) (w : option WebSocket) (u : UploadId)
    (key : string) (s : State) : armed id d s -> armed id d (sendMessage w u key s).
Proof.
  intros W. unfold sendMessage.
  destruct w; [destruct (readyState s)|]; try exact W.
  destruct W as ((t & P & D) & C & L). split; [|split]; cbn.
  - exists t. split; [|exact D]. unfold pending; cbn. apply find_app_l. exact P.
  - exact C.
  - lia.
Qed.

(** While no frame arrives, a pending timer stays pending until it runs, and
    it runs at its deadline. *)
Lemma armed_step (id : TimerId) (d : N) (s s' : State) (e : Event) :
  armed id d s -> step s e = Some s' -> is_frame e = false ->
  (fired id e = false /\ armed id d s') \/
  (e = TimerFired id /\ spent id s' /\ clock s' = d /\
   message s' = "No response from server yet. Check backend logs.").
Proof.
  intros W H NF.
  destruct e as [| |files|v p|v|v| | | | |j|]; cbn [step] in H; cbn [fired]; try discriminate NF.
  - left. destruct (ws s); inversion H; subst s'. split; [reflexivity|exact W].
  - left. destruct (forallb _ _) eqn:FA; inversion H; subst s'. split; [reflexivity|].
    destruct W as ((t & P & D) & C & L). split; [|split]; [exists t; auto| |exact L].
    cbn. unfold pending in P. apply find_some in P. destruct P as [P _].
    rewrite forallb_forall in FA. specialize (FA t P). apply N.leb_le in FA. lia.
  - left. inversion H; subst s'. split; [reflexivity|]. unfold processImage_begin.
    destruct (first_file files); exact W.
  - left. destruct (find_upload v s); inversion H; subst s'. split; [reflexivity|].
    unfold httpUploadProgress. destruct (_ <? _)%N; exact W.
  - left. destruct (find_upload v s) as [x|]; inversion H; subst s'. split; [reflexivity|].
    cbn. apply armed_sendMessage. exact W.
  - left. destruct (find_upload v s) as [x|]; inversion H; subst s'.
    split; [reflexivity|exact W].
  - left. destruct (ws s); [destruct (readyState s)|]; inversion H; subst s'.
    split; [reflexivity|exact W].
  - left. destruct (ws s); inversion H; subst s'. split; [reflexivity|exact W].
  - left. destruct (ws s); inversion H; subst s'. split; [reflexivity|exact W].
  - destruct W as ((t & P & D) & C & L).
    destruct (Pos.eqb_spec j id) as [E|NE].
    + right. subst j. rewrite P in H.
      destruct (due t <=? clock s)%N eqn:Due; inversion H; subst s'.
      apply N.leb_le in Due. split; [reflexivity|]. split; [|split].
      * split; [|exact L]. cbn. intros y Hin. apply filter_In in Hin.
        destruct Hin as [_ Hin]. apply negb_true_iff, Pos.eqb_neq in Hin. exact Hin.
      * cbn. lia.
      * reflexivity.
    + left. split; [reflexivity|].
      destruct (pending j s) as [t0|]; [|discriminate].
      destruct (_ <=? _)%N; inversion H; subst s'.
      split; [|split]; [|exact C|exact L].
      exists t. split; [|exact D]. unfold pending; cbn. apply find_filter; [exact P|].
      unfold pending in P. apply find_some in P. destruct P as [_ P].
      apply Pos.eqb_eq in P. rewrite P. apply negb_true_iff, Pos.eqb_neq. auto.
  - left. destruct (ws s); [destruct (readyState s)|]; inversion H; subst s'.
    split; [reflexivity|exact W].
Qed.

(** Until it runs, the timer stays pending and the clock stays within its
    deadline. *)
Lemma armed_run_waiting (id : TimerId) (d : N) (evs : list Event) (s s2 : State) :
  armed id d s -> run s evs = Some s2 -> existsb is_frame evs = false ->
  existsb (fired id) evs = false -> armed id d s2.
Proof.
  revert s. induction evs as [|e evs IH]; simpl; intros s W H NF NT.
  - inversion H; subst. exact W.
  - apply orb_false_iff in NF. destruct NF as [NF1 NF2].
    apply orb_false_iff in NT. destruct NT as [NT1 NT2].
    destruct (step s e) as [s1|] eqn:E; [|discriminate].
    destruct (armed_step id d s s1 e W E NF1) as [[F W1]|(Ee & _)].
    + apply (IH s1 W1 H NF2 NT2).
    + subst e. cbn in NT1. rewrite Pos.eqb_refl in NT1. discriminate.
Qed.

(** Once the clock is past the deadline of a timer that was pending, and no
    frame has arrived, the timer has run exactly once, at its deadline. *)
Lemma armed_run (id : TimerId) (d : N) (evs : list Event) (s s2 : State) :
  armed id d s -> run s evs = Some s2 -> existsb is_frame evs = false ->
  (d < clock s2)%N ->
  exists pre post sf,
    evs = (pre ++ TimerFired id :: post)%list /\
    existsb (fired id) pre = false /\
    existsb (fired id) post = false /\
    run s (pre ++ [TimerFired id])%list = Some sf /\
    clock sf = d /\
    message sf = "No response from server yet. Check backend logs.".
Proof.
  revert s. induction evs as [|e evs IH]; simpl; intros s W H NF Late.
  - inversion H; subst. destruct W as (_ & C & _). lia.
  - apply orb_false_iff in NF. destruct NF as [NF1 NF2].
    destruct (step s e) as [s1|] eqn:E; [|discriminate].
    destruct (armed_step id d s s1 e W E NF1) as [[F W1]|(Ee & Sp & Ck & Msg)].
    + destruct (IH s1 W1 H NF2 Late) as (pre & post & sf & E1 & E2 & E3 & E4 & E5 & E6).
      exists (e :: pre), post, sf. cbn [run app existsb]. rewrite F, E. subst evs. auto 10.
    + subst e. exists [], evs, s1. cbn [run app existsb]. rewrite E.
      pose proof (spent_run id evs s1 s2 Sp H). auto 10.
Qed.

(** *** The timer of the current session *)

Lemma tracked_clear_response_timeout (s : State) :
  tracked s ->
  forall t, In t (timers (clear_response_timeout s)) ->
    Some (timer_owner t) <> current_session s.
Proof.
  intros T t Hin Hown. unfold clear_response_timeout in Hin.
  destruct (responseTimeoutRef s) as [id|] eqn:Ref.
  - cbn in Hin. apply filter_In in Hin. destruct Hin as [Hin Hne].
    pose proof (T t Hin Hown) as E. rewrite Ref in E. inversion E; subst.
    rewrite Pos.eqb_refl in Hne. discriminate.
  - pose proof (T t Hin Hown) as E. rewrite Ref in E. discriminate.
Qed.

Lemma tracked_ws_onmessage (data : string) (s : State) :
  tracked s -> tracked (ws_onmessage data s).
Proof.
  intros T.
  assert (T1 : tracked (clear_response_timeout s)).
  { intros t Hin Hown. exfalso.
    apply (tracked_clear_response_timeout s T t Hin).
    rewrite Hown. unfold clear_response_timeout.
    destruct (responseTimeoutRef s); reflexivity. }
  destruct (ws_onmessage_cases data s) as [E|[E|[t E]]]; rewrite E; exact T1.
Qed.

Lemma tracked_sendMessage (w : option WebSocket) (u : UploadId) (key : string) (s : State) :
  silent_in u (timers s) (outbox s) -> tracked s -> tracked (sendMessage w u key s).
Proof.
  intros [_ Hs] T. unfold sendMessage.
  destruct w; [destruct (readyState s)|]; try exact T.
  intros t Hin Hown. cbn in Hin |- *.
  unfold current_session in Hown. cbn [outbox set_responseTimeoutRef set_nextTimer
    set_timers setMessage ws_send set_outbox setTimeout] in Hown.
  rewrite map_app in Hown. cbn [map] in Hown. rewrite last_last in Hown.
  cbn [sent_by] in Hown. inversion Hown as [Ho].
  apply in_app_or in Hin. destruct Hin as [Hin|[Hin|[]]].
  - exfalso. apply (Hs t Hin Ho).
  - subst t. reflexivity.
Qed.

Lemma tracked_step (s s' : State) (e : Event) :
  wf s -> tracked s -> step s e = Some s' -> tracked s'.
Proof.
  intros W T H. destruct e as [| |files|v p|v|v| | | | |j|]; cbn [step] in H.
  - destruct (ws s); inversion H; subst. exact T.
  - destruct (forallb _ _); inversion H; subst. exact T.
  - inversion H; subst. unfold processImage_begin.
    destruct (first_file files); exact T.
  - destruct (find_upload v s); inversion H; subst.
    unfold httpUploadProgress. destruct (_ <? _)%N; exact T.
  - destruct (find_upload v s) as [x|] eqn:F; inversion H; subst.
    apply find_upload_In in F. destruct F as [Fin Fid].
    cbn. apply tracked_sendMessage; [|exact T].
    destruct W as (_ & _ & _ & _ & Ws). apply (Ws x Fin).
  - destruct (find_upload v s) as [x|]; inversion H; subst. exact T.
  - destruct (ws s); [destruct (readyState s)|]; inversion H; subst. exact T.
  - destruct (ws s); [destruct (readyState s)|]; inversion H; subst.
    apply tracked_ws_onmessage, T.
  - destruct (ws s); inversion H; subst. exact T.
  - destruct (ws s); inversion H; subst. exact T.
  - destruct (pending j s) as [t0|]; [|discriminate].
    destruct (_ <=? _)%N; inversion H; subst.
    intros t Hin Hown. cbn in Hin. apply filter_In in Hin. apply (T t); tauto.
  - destruct (ws s); [destruct (readyState s)|]; inversion H; subst. exact T.
Qed.

Lemma reachable_tracked (s : State) : reachable s -> tracked s.
Proof.
  intros (e & evs & H).
  assert (G : forall evs s0, wf s0 -> tracked s0 -> run s0 evs = Some s -> tracked s).
  { clear. induction evs as [|e evs IH]; simpl; intros s0 W T H.
    - inversion H; subst; exact T.
    - destruct (step s0 e) as [s1|] eqn:E; [|discriminate].
      apply (IH s1); [apply (wf_step s0 s1 e W E)|apply (tracked_step s0 s1 e W T E)|exact H]. }
  apply (G evs (init e)); [apply wf_init| |exact H].
  intros t Hin. destruct Hin.
Qed.

(** *** The timer in the reference *)

Lemma latest_ws_onmessage (data : string) (s : State) : latest (ws_onmessage data s).
Proof.
  pose proof (clear_response_timeout_ref s) as C.
  intros id Hid. exfalso.
  destruct (ws_onmessage_cases data s) as [E|[E|[t E]]]; rewrite E in Hid; cbn in Hid;
    rewrite C in Hid; discriminate.
Qed.

Lemma latest_sendMessage (w : option WebSocket) (u : UploadId) (key : string) (s : State) :
  latest s -> latest (sendMessage w u key s).
Proof.
  intros W. unfold sendMessage. destruct w; [destruct (readyState s)|]; try exact W.
  intros id Hid. cbn in Hid |- *. inversion Hid. reflexivity.
Qed.

Lemma latest_step (s s' : State) (e : Event) : latest s -> step s e = Some s' -> latest s'.
Proof.
  intros W H. destruct e as [| |files|v p|v|v| | | | |j|]; cbn [step] in H.
  - destruct (ws s); inversion H; subst. exact W.
  - destruct (forallb _ _); inversion H; subst. exact W.
  - inversion H; subst. unfold processImage_begin. destruct (first_file files); exact W.
  - destruct (find_upload v s); inversion H; subst.
    unfold httpUploadProgress. destruct (_ <? _)%N; exact W.
  - destruct (find_upload v s) as [x|]; inversion H; subst.
    cbn. apply latest_sendMessage. exact W.
  - destruct (find_upload v s) as [x|]; inversion H; subst. exact W.
  - destruct (ws s); [destruct (readyState s)|]; inversion H; subst. exact W.
  - destruct (ws s); [destruct (readyState s)|]; inversion H; subst.
    apply latest_ws_onmessage.
  - destruct (ws s); inversion H; subst. exact W.
  - destruct (ws s); inversion H; subst. exact W.
  - destruct (pending j s) as [t|]; [|discriminate].
    destruct (_ <=? _)%N; inversion H; subst. exact W.
  - destruct (ws s); [destruct (readyState s)|]; inversion H; subst. exact W.
Qed.

Lemma reachable_latest (s : State) : reachable s -> latest s.
Proof.
  intros (e & evs & H).
  assert (G : forall evs s0, latest s0 -> run s0 evs = Some s -> latest s).
  { clear. induction evs as [|e evs IH]; simpl; intros s0 W H.
    - inversion H; subst; exact W.
    - destruct (step s0 e) as [s1|] eqn:E; [|discriminate].
      apply (IH s1); [apply (latest_step s0 s1 e W E)|exact H]. }
  apply (G evs (init e)); [|exact H]. intros id Hid. discriminate.
Qed.

(** The timers that the clearing of the reference leaves are the ones the
    reference did not hold. *)
Lemma clear_response_timeout_timers (s : State) (t : Timer) :
  In t (timers (clear_response_timeout s)) <->
  In t (timers s) /\ responseTimeoutRef s <> Some (timer_id t).
Proof.
  unfold clear_response_timeout. destruct (responseTimeoutRef s) as [id|]; cbn.
  - rewrite filter_In. rewrite negb_true_iff, Pos.eqb_neq.
    split; intros [A B]; (split; [exact A|]); congruence.
  - split; [intros A; split; [exact A|discriminate]|tauto].
Qed.

End Invariants.

(** * The claims *)

Section Claims.
Import Float64 JS App Scenario.
Local Open Scope string_scope.

(** ** Supersession *)

(** C1, as stated, fails: five seconds into a wait a second file is selected.
    The timer of the first session is still pending afterwards; when it runs
    it replaces the status line of the second session, and a result frame that
    arrives during the second upload is published as its result. *)
Lemma superseded_session_still_acts :
  phase (after awaiting) = AwaitingResult /\
  timer_ids (after awaiting) = [1%positive] /\
  timer_ids (after superseded) = [1%positive] /\
  message (after superseded) = "Uploading... 0%" /\
  option_map message (run (after superseded) [Elapse 10000; TimerFired 1%positive])
    = Some "No response from server yet. Check backend logs." /\
  option_map message (run (after superseded) [SocketMessage result_frame])
    = Some "Completed" /\
  option_map numberPlate (run (after superseded) [SocketMessage result_frame])
    = Some "Number plate: XYZ123".
Proof. vm_compute. repeat split. Qed.

(** C1, amended.  Selecting a file starts a session without cancelling
    anything: the pending timers and [responseTimeoutRef] are as before, and
    only the preview, the status line ("Uploading... 0%") and the result
    ("Number plate: .....") are reset; the socket, the indicator and the
    frames sent stay as they are.  Timer callbacks and frames carry no
    session: a timer that is still pending runs when due and sets the status
    line to the timeout text, and a result frame is published as the result
    of whatever session is current. *)
Theorem new_session_keeps_old_timer (s : State) (f : File) (rest : list File) :
  let s' := processImage_begin (Some (f :: rest)) s in
  step s (FileSelected (Some (f :: rest))) = Some s' /\
  timers s' = timers s /\
  responseTimeoutRef s' = responseTimeoutRef s /\
  image s' = Some f /\
  message s' = "Uploading... 0%" /\
  numberPlate s' = "Number plate: ....." /\
  ws s' = ws s /\
  socketStatusColour s' = socketStatusColour s /\
  readyState s' = readyState s /\
  outbox s' = outbox s /\
  (forall id t, pending id s' = Some t -> (due t <= clock s')%N ->
     exists s'', step s' (TimerFired id) = Some s'' /\
       message s'' = "No response from server yet. Check backend logs." /\
       phase s'' = Failed Timeout) /\
  (forall data v txt, JSON_parse data = Some v ->
     Get v "message" = Normal (Some (JStr txt)) ->
     message (ws_onmessage data s') = "Completed" /\
     numberPlate (ws_onmessage data s') = "Number plate: " ++ txt).
Proof.
  intros s'. do 10 (split; [reflexivity|]). split.
  - intros id t P D. cbn [step]. rewrite P. apply N.leb_le in D. rewrite D.
    eexists. split; [reflexivity|]. split; reflexivity.
  - intros data v txt Hp Hg. unfold ws_onmessage. rewrite Hp, Hg. split; reflexivity.
Qed.

Lemma new_session_keeps_old_timer_witness :
  let s := after (awaiting ++ [Elapse 15000]) in
  let s' := processImage_begin (Some [van]) s in
  pending 1%positive s' = Some {| timer_id := 1%positive; due := 15000; timer_owner := 0 |} /\
  (15000 <= clock s')%N /\
  JSON_parse result_frame = Some (JObj [("message", JStr "XYZ123")]) /\
  (exists s'', step s' (TimerFired 1%positive) = Some s'' /\
     message s'' = "No response from server yet. Check backend logs." /\
     phase s'' = Failed Timeout) /\
  numberPlate (ws_onmessage result_frame s') = "Number plate: XYZ123".
Proof.
  intros s s'.
  destruct (new_session_keeps_old_timer s van [])
    as (_ & _ & _ & _ & _ & _ & _ & _ & _ & _ & T & M).
  assert (P : pending 1%positive s' = Some {| timer_id := 1%positive; due := 15000; timer_owner := 0 |})
    by (vm_compute; reflexivity).
  assert (C : (15000 <= clock s')%N) by (vm_compute; discriminate).
  assert (J : JSON_parse result_frame = Some (JObj [("message", JStr "XYZ123")]))
    by (vm_compute; reflexivity).
  split; [exact P|]. split; [exact C|]. split; [exact J|]. split.
  - exact (T 1%positive _ P C).
  - exact (proj2 (M result_frame _ "XYZ123" J eq_refl)).
Defined.

(** ** Inbound frames *)

(** C2, as stated, fails: a frame that is not JSON cancels the pending timer
    and empties [responseTimeoutRef], and an object without [message] is taken
    for a result. *)
Lemma malformed_frame_is_not_ignored :
  JSON_parse "oops" = None /\
  timer_ids (after awaiting) = [1%positive] /\
  responseTimeoutRef (after awaiting) = Some 1%positive /\
  option_map timer_ids (step (after awaiting) (SocketMessage "oops")) = Some [] /\
  option_map responseTimeoutRef (step (after awaiting) (SocketMessage "oops")) = Some None /\
  JSON_parse "{}" = Some (JObj []) /\
  option_map message (step (after awaiting) (SocketMessage "{}")) = Some "Completed" /\
  option_map numberPlate (step (after awaiting) (SocketMessage "{}"))
    = Some "Number plate: undefined".
Proof. vm_compute. repeat split. Qed.

(** C2, amended.  A frame on which [JSON.parse] throws (or that is [null],
    on which the access to [message] throws) changes neither the status line
    nor the result nor the phase, but the timer held in [responseTimeoutRef]
    is cancelled and the reference emptied before the frame is parsed.  A
    frame that parses to a value without [message] is handled as a result:
    the status line is "Completed" and the result "Number plate: undefined". *)
Theorem malformed_frame_clears_timer (s : State) (data : string) :
  (JSON_parse data = None \/ JSON_parse data = Some JNull ->
   let s' := ws_onmessage data s in
   message s' = message s /\
   numberPlate s' = numberPlate s /\
   phase s' = phase s /\
   image s' = image s /\
   socketStatusColour s' = socketStatusColour s /\
   responseTimeoutRef s' = None /\
   (forall id, responseTimeoutRef s = Some id -> pending id s' = None) /\
   (responseTimeoutRef s = None -> timers s' = timers s)) /\
  (forall v, JSON_parse data = Some v -> Get v "message" = Normal None ->
   let s' := ws_onmessage data s in
   message s' = "Completed" /\
   phase s' = Completed /\
   numberPlate s' = "Number plate: undefined" /\
   responseTimeoutRef s' = None /\
   (forall id, responseTimeoutRef s = Some id -> pending id s' = None)).
Proof.
  pose proof (clear_response_timeout_ref s) as C1.
  pose proof (clear_response_timeout_pending s) as C2.
  split.
  - intros H s'.
    assert (E : s' = clear_response_timeout s).
    { subst s'. unfold ws_onmessage. destruct H as [H|H]; rewrite H; reflexivity. }
    rewrite E. clear E s'. split; [|split; [|split; [|split; [|split; [|split; [|split]]]]]];
      try exact C1; try exact C2;
      unfold clear_response_timeout, phase; destruct (responseTimeoutRef s); try reflexivity.
    discriminate.
  - intros v Hp Hg s'. subst s'. unfold ws_onmessage. rewrite Hp, Hg. cbn.
    split; [reflexivity|]. split; [reflexivity|]. split; [reflexivity|].
    split; [exact C1|exact C2].
Qed.

Lemma malformed_frame_clears_timer_witness :
  JSON_parse "oops" = None /\
  JSON_parse "{}" = Some (JObj []) /\
  message (ws_onmessage "oops" (after awaiting)) = "Processing image...." /\
  pending 1%positive (ws_onmessage "oops" (after awaiting)) = None /\
  numberPlate (ws_onmessage "{}" (after awaiting)) = "Number plate: undefined".
Proof.
  assert (J1 : JSON_parse "oops" = None) by (vm_compute; reflexivity).
  assert (J2 : JSON_parse "{}" = Some (JObj [])) by (vm_compute; reflexivity).
  split; [exact J1|]. split; [exact J2|].
  destruct (malformed_frame_clears_timer (after awaiting) "oops") as [A _].
  destruct (A (or_introl J1)) as (A1 & _ & _ & _ & _ & _ & A7 & _).
  destruct (malformed_frame_clears_timer (after awaiting) "{}") as [_ B].
  destruct (B (JObj []) J2 eq_refl) as (_ & _ & B3 & _).
  split; [|split].
  - rewrite A1. vm_compute. reflexivity.
  - apply A7. vm_compute. reflexivity.
  - exact B3.
Defined.

(** C8, as stated, fails when two notifications are waiting.  Two files are
    selected and the second upload is done first: timers 1 and 2 are pending
    and the reference holds timer 2.  The result frame completes the session
    and cancels timer 2 only; timer 1, started for the file selected last, is
    still pending, and when it runs it replaces "Completed" by the timeout
    text. *)
Lemma result_frame_leaves_earlier_timer :
  phase (after crossed) = AwaitingResult /\
  timers (after crossed)
    = [{| timer_id := 1%positive; due := 15000; timer_owner := 1 |};
       {| timer_id := 2%positive; due := 15000; timer_owner := 0 |}] /\
  responseTimeoutRef (after crossed) = Some 2%positive /\
  option_map phase (step (after crossed) (SocketMessage result_frame)) = Some Completed /\
  option_map timers (step (after crossed) (SocketMessage result_frame))
    = Some [{| timer_id := 1%positive; due := 15000; timer_owner := 1 |}] /\
  option_map message
      (run (after crossed) [SocketMessage result_frame; Elapse 15000; TimerFired 1%positive])
    = Some "No response from server yet. Check backend logs." /\
  option_map numberPlate
      (run (after crossed) [SocketMessage result_frame; Elapse 15000; TimerFired 1%positive])
    = Some "Number plate: XYZ123".
Proof. vm_compute. repeat split. Qed.

(** C8, amended.  A frame whose [message] is the text [txt] (as in
    [{"message":"XYZ123"}]) arriving during the wait completes the session:
    the phase is Completed and the result is exactly "Number plate: "
    followed by the text.  Of the pending timers it cancels the one held in
    [responseTimeoutRef], which is the timer started last, and empties the
    reference; every other pending timer stays pending and, when due, runs
    and replaces "Completed" by the timeout text. *)
Theorem result_frame_cancels_latest_timer (s : State) (data : string) (v : JSValue)
    (txt : string) :
  reachable s -> phase s = AwaitingResult ->
  JSON_parse data = Some v -> Get v "message" = Normal (Some (JStr txt)) ->
  let s' := ws_onmessage data s in
  phase s' = Completed /\
  numberPlate s' = "Number plate: " ++ txt /\
  responseTimeoutRef s' = None /\
  (forall id, responseTimeoutRef s = Some id ->
     nextTimer s = Pos.succ id /\ pending id s' = None) /\
  (forall t, In t (timers s') <->
     In t (timers s) /\ responseTimeoutRef s <> Some (timer_id t)) /\
  (forall id t, pending id s' = Some t -> (due t <= clock s')%N ->
     exists s'', step s' (TimerFired id) = Some s'' /\
       message s'' = "No response from server yet. Check backend logs." /\
       phase s'' = Failed Timeout) /\
  (forall w, ws s = Some w -> readyState s = OPEN -> step s (SocketMessage data) = Some s').
Proof.
  intros R _ Hp Hg s'. apply reachable_latest in R.
  assert (E : s' = setNumberPlate ("Number plate: " ++ txt)
                     (setMessage "Completed" (clear_response_timeout s))).
  { subst s'. unfold ws_onmessage. rewrite Hp, Hg. reflexivity. }
  split; [rewrite E; reflexivity|]. split; [rewrite E; reflexivity|].
  split; [|split; [|split; [|split]]].
  - rewrite E. apply (clear_response_timeout_ref s).
  - intros id Hid. split; [apply (R id Hid)|].
    rewrite E. apply (clear_response_timeout_pending s id Hid).
  - intros t. rewrite E. apply (clear_response_timeout_timers s t).
  - intros id t P D. cbn [step]. rewrite P. apply N.leb_le in D. rewrite D.
    eexists. split; [reflexivity|]. split; reflexivity.
  - intros w Hw Ho. cbn [step]. rewrite Hw, Ho. reflexivity.
Qed.

Lemma result_frame_cancels_latest_timer_witness :
  reachable (after crossed) /\
  phase (after crossed) = AwaitingResult /\
  JSON_parse result_frame = Some (JObj [("message", JStr "XYZ123")]) /\
  responseTimeoutRef (after crossed) = Some 2%positive /\
  phase (ws_onmessage result_frame (after crossed)) = Completed /\
  numberPlate (ws_onmessage result_frame (after crossed)) = "Number plate: XYZ123" /\
  nextTimer (after crossed) = 3%positive /\
  pending 2%positive (ws_onmessage result_frame (after crossed)) = None /\
  In {| timer_id := 1%positive; due := 15000; timer_owner := 1 |}
     (timers (ws_onmessage result_frame (after crossed))) /\
  step (after crossed) (SocketMessage result_frame)
    = Some (ws_onmessage result_frame (after crossed)).
Proof.
  assert (Re : reachable (after crossed))
    by (apply reachable_after; vm_compute; discriminate).
  assert (P : phase (after crossed) = AwaitingResult) by (vm_compute; reflexivity).
  assert (J : JSON_parse result_frame = Some (JObj [("message", JStr "XYZ123")]))
    by (vm_compute; reflexivity).
  assert (R : responseTimeoutRef (after crossed) = Some 2%positive)
    by (vm_compute; reflexivity).
  destruct (result_frame_cancels_latest_timer (after crossed) result_frame _ "XYZ123"
              Re P J eq_refl) as (H1 & H2 & _ & H4 & H5 & _ & H7).
  split; [exact Re|]. split; [exact P|]. split; [exact J|]. split; [exact R|].
  split; [exact H1|]. split; [exact H2|].
  split; [exact (proj1 (H4 _ R))|]. split; [exact (proj2 (H4 _ R))|]. split.
  - apply H5. split; [vm_compute; auto|]. rewrite R. discriminate.
  - apply (H7 {| url := webSocketUrl env0 |}); vm_compute; reflexivity.
Defined.

(** ** The bounded wait *)

(** C3, as stated, fails on the status line only: the text published on a
    timeout is longer than the one the claim gives. *)
Lemma timeout_status_is_longer :
  exists s, run (init env0) (awaiting ++ [Elapse 15000; TimerFired 1%positive]) = Some s /\
    phase s = Failed Timeout /\
    message s = "No response from server yet. Check backend logs." /\
    message s <> "No response from server yet.".
Proof.
  eexists. split; [vm_compute; reflexivity|].
  split; [reflexivity|]. split; [reflexivity|]. discriminate.
Qed.

(** C3, amended.  When the upload of a session is done and the socket is
    open, the notification is sent and a timer of 15 000 ms is started.  As
    long as no frame arrives the timer stays pending until it runs, and it
    can run as soon as the deadline is reached; by the time the clock has
    passed the deadline it has run exactly once, at the deadline, and set the
    status line to "No response from server yet. Check backend logs." (phase
    Failed, reason Timeout). *)
Theorem response_timeout_fires_once (s : State) (u : UploadId) (x : Upload) (w : WebSocket) :
  reachable s -> find_upload u s = Some x -> upload_ws x = Some w -> readyState s = OPEN ->
  exists s1 id,
    step s (UploadDone u) = Some s1 /\
    phase s1 = AwaitingResult /\
    outbox s1 = (outbox s ++ [{| sent_by := u;
                   frame := payload (bucketName (env s)) (name (upload_image x)) |}])%list /\
    responseTimeoutRef s1 = Some id /\
    pending id s1 = Some {| timer_id := id; due := clock s + 15000; timer_owner := u |} /\
    (forall evs s2,
       run s1 evs = Some s2 -> existsb is_frame evs = false ->
       existsb (fired id) evs = false ->
       (clock s2 <= clock s + 15000)%N /\
       exists t, pending id s2 = Some t /\ due t = (clock s + 15000)%N /\
         ((clock s + 15000 <= clock s2)%N ->
          exists sf, step s2 (TimerFired id) = Some sf /\
            message sf = "No response from server yet. Check backend logs.")) /\
    (forall evs s2,
       run s1 evs = Some s2 -> existsb is_frame evs = false ->
       (clock s + 15000 < clock s2)%N ->
       exists pre post sf,
         evs = (pre ++ TimerFired id :: post)%list /\
         existsb (fired id) pre = false /\
         existsb (fired id) post = false /\
         run s1 (pre ++ [TimerFired id])%list = Some sf /\
         clock sf = (clock s + 15000)%N /\
         message sf = "No response from server yet. Check backend logs." /\
         phase sf = Failed Timeout).
Proof.
  intros R F Hw Ho. apply reachable_wf in R.
  pose proof (find_upload_In u s x F) as [Fin Fid].
  set (s1 := sendMessage (Some w) u (name (upload_image x))
               (setMessage "Upload is done" (remove_upload u s))).
  assert (E : step s (UploadDone u) = Some s1).
  { cbn [step]. rewrite F. cbn. rewrite Hw, Fid. reflexivity. }
  assert (P : pending (nextTimer s) s1
              = Some {| timer_id := nextTimer s; due := clock s + 15000; timer_owner := u |}).
  { subst s1. unfold sendMessage. cbn. rewrite Ho. unfold pending; cbn. rewrite find_app_r.
    - cbn. rewrite Pos.eqb_refl. reflexivity.
    - intros y Hy. destruct R as (Wt & _). apply Wt in Hy. apply Pos.eqb_neq. lia. }
  assert (A : armed (nextTimer s) (clock s + 15000) s1).
  { split; [|split].
    - eexists. split; [exact P|reflexivity].
    - subst s1. unfold sendMessage. cbn. rewrite Ho. cbn. lia.
    - subst s1. unfold sendMessage. cbn. rewrite Ho. cbn. lia. }
  exists s1, (nextTimer s). split; [exact E|].
  split; [subst s1; unfold sendMessage; cbn; rewrite Ho; reflexivity|].
  split; [subst s1; unfold sendMessage; cbn; rewrite Ho; reflexivity|].
  split; [subst s1; unfold sendMessage; cbn; rewrite Ho; reflexivity|].
  split; [exact P|]. split.
  { intros evs s2 Hrun NF NT.
    destruct (armed_run_waiting _ _ evs s1 s2 A Hrun NF NT) as ((t & Pt & Dt) & Ck & _).
    split; [exact Ck|]. exists t. split; [exact Pt|]. split; [exact Dt|].
    intros Due. cbn [step]. rewrite Pt. rewrite Dt.
    apply N.leb_le in Due. rewrite Due. eexists. split; reflexivity. }
  intros evs s2 Hrun NF Late.
  destruct (armed_run _ _ evs s1 s2 A Hrun NF Late)
    as (pre & post & sf & E1 & E2 & E3 & E4 & E5 & E6).
  exists pre, post, sf.
  split; [exact E1|]. split; [exact E2|]. split; [exact E3|]. split; [exact E4|].
  split; [exact E5|]. split; [exact E6|]. unfold phase. rewrite E6. reflexivity.
Qed.

Lemma response_timeout_fires_once_witness :
  reachable (after uploading) /\
  readyState (after uploading) = OPEN /\
  exists s1 id,
    step (after uploading) (UploadDone 0) = Some s1 /\
    responseTimeoutRef s1 = Some id /\
    forall s2, run s1 [Elapse 15000; TimerFired 1%positive; Elapse 1] = Some s2 ->
      exists pre post,
        [Elapse 15000; TimerFired 1%positive; Elapse 1] = (pre ++ TimerFired id :: post)%list /\
        existsb (fired id) pre = false /\ existsb (fired id) post = false.
Proof.
  assert (R : reachable (after uploading))
    by (apply reachable_after; vm_compute; discriminate).
  assert (O : readyState (after uploading) = OPEN) by (vm_compute; reflexivity).
  split; [exact R|]. split; [exact O|].
  destruct (response_timeout_fires_once (after uploading) 0
              {| upload_id := 0; upload_image := car;
                 upload_ws := Some {| url := webSocketUrl env0 |} |}
              {| url := webSocketUrl env0 |} R eq_refl eq_refl O)
    as (s1 & id & E & _ & _ & Ref & P & _ & H).
  exists s1, id. split; [exact E|]. split; [exact Ref|].
  intros s2 Hrun.
  assert (C : (clock (after uploading) + 15000 < clock s2)%N).
  { vm_compute in E. inversion E; subst s1. vm_compute in Hrun. inversion Hrun; subst s2.
    vm_compute. reflexivity. }
  destruct (H _ s2 Hrun eq_refl C) as (pre & post & sf & E1 & E2 & E3 & _).
  exists pre, post. auto.
Defined.

(** ** Channel failures *)

(** C4, as stated, fails: an error or a close of the socket during the wait
    leaves the timer pending, and a close leaves the phase as it is. *)
Lemma channel_failure_leaves_timer :
  phase (after awaiting) = AwaitingResult /\
  timer_ids (after awaiting) = [1%positive] /\
  option_map timer_ids (step (after awaiting) SocketError) = Some [1%positive] /\
  option_map timer_ids (step (after awaiting) SocketClose) = Some [1%positive] /\
  option_map phase (step (after awaiting) SocketClose) = Some AwaitingResult /\
  option_map message (run (after awaiting) [SocketError; Elapse 15000; TimerFired 1%positive])
    = Some "No response from server yet. Check backend logs.".
Proof. vm_compute. repeat split. Qed.

(** C4, amended.  An error event of the socket publishes "WebSocket error
    while processing image" (phase Failed, reason ChannelError) and turns the
    indicator red; a close event only turns the indicator grey and leaves the
    status line and the phase as they are.  Neither cancels a pending timer or
    touches [responseTimeoutRef]. *)
Theorem channel_failure_keeps_timer (s : State) (w : WebSocket) :
  ws s = Some w ->
  (exists s1, step s SocketError = Some s1 /\
     message s1 = "WebSocket error while processing image" /\
     phase s1 = Failed ChannelError /\
     socketStatusColour s1 = "red" /\
     timers s1 = timers s /\
     responseTimeoutRef s1 = responseTimeoutRef s /\
     numberPlate s1 = numberPlate s) /\
  (exists s2, step s SocketClose = Some s2 /\
     message s2 = message s /\
     phase s2 = phase s /\
     socketStatusColour s2 = "grey" /\
     timers s2 = timers s /\
     responseTimeoutRef s2 = responseTimeoutRef s /\
     numberPlate s2 = numberPlate s).
Proof.
  intros Hw. cbn [step]. rewrite Hw.
  split; eexists; (split; [reflexivity|]); cbn; auto 10.
Qed.

Lemma channel_failure_keeps_timer_witness :
  ws (after awaiting) = Some {| url := webSocketUrl env0 |} /\
  (exists s1, step (after awaiting) SocketError = Some s1 /\
     phase s1 = Failed ChannelError /\ timer_ids s1 = [1%positive]) /\
  (exists s2, step (after awaiting) SocketClose = Some s2 /\
     phase s2 = AwaitingResult /\ timer_ids s2 = [1%positive]).
Proof.
  assert (W : ws (after awaiting) = Some {| url := webSocketUrl env0 |})
    by (vm_compute; reflexivity).
  split; [exact W|].
  destruct (channel_failure_keeps_timer (after awaiting) _ W)
    as [(s1 & A1 & _ & A3 & _ & A5 & _) (s2 & B1 & _ & B3 & _ & B5 & _)].
  split.
  - exists s1. split; [exact A1|]. split; [exact A3|].
    unfold timer_ids. rewrite A5. vm_compute. reflexivity.
  - exists s2. split; [exact B1|]. split.
    + rewrite B3. vm_compute. reflexivity.
    + unfold timer_ids. rewrite B5. vm_compute. reflexivity.
Defined.

(** ** Upload progress *)

(** C5, as stated, fails: the percentage follows the byte counter down, and
    an event without [total] still publishes a percentage, taken from the
    size of the file. *)
Lemma progress_can_go_back :
  message (httpUploadProgress car (bytes 500000 1000000) (after uploading))
    = "Uploading... 50%" /\
  message (httpUploadProgress car (bytes 250000 1000000)
             (httpUploadProgress car (bytes 500000 1000000) (after uploading)))
    = "Uploading... 25%" /\
  ~ Sorted Z.le (map (fun l => percent l 1000000) [500000%N; 250000%N]) /\
  message (httpUploadProgress car (Some {| loaded := Some 250000%N; total := None |})
             (after uploading))
    = "Uploading... 25%".
Proof.
  split; [vm_compute; reflexivity|]. split; [vm_compute; reflexivity|].
  split; [|vm_compute; reflexivity].
  assert (E1 : percent 500000 1000000 = 50%Z) by (vm_compute; reflexivity).
  assert (E2 : percent 250000 1000000 = 25%Z) by (vm_compute; reflexivity).
  cbn [map]. rewrite E1, E2. intros H.
  apply Sorted_inv in H. destruct H as [_ H]. apply HdRel_inv in H. lia.
Qed.

(** C5, amended.  Every published percentage lies in [0,100], and over a
    fixed total the percentages are non-decreasing whenever the byte counts
    are.  The total of an event is its [total] or, when that is unknown or
    zero, the size of the file; the status "Uploading..." without a percentage
    is published exactly when both are unknown or zero. *)
Theorem progress_percent_bounded (img : File) (p : option Progress) (s : State) :
  ((0 < progress_total img p)%N ->
   message (httpUploadProgress img p s)
     = "Uploading... "
       ++ Number_toString (of_Z (percent (progress_loaded p) (progress_total img p))) ++ "%" /\
   (0 <= percent (progress_loaded p) (progress_total img p) <= 100)%Z) /\
  (progress_total img p = 0%N -> message (httpUploadProgress img p s) = "Uploading...") /\
  (match p with
   | Some {| total := Some (Npos t) |} => progress_total img p = Npos t
   | _ => progress_total img p = size img
   end) /\
  (forall t ls, Sorted N.le ls -> Sorted Z.le (map (fun l => percent l t) ls)).
Proof.
  split; [|split; [|split]].
  - intros H. unfold httpUploadProgress. apply N.ltb_lt in H. rewrite H.
    split; [reflexivity|apply percent_bounds].
  - intros H. unfold httpUploadProgress. rewrite H. reflexivity.
  - unfold progress_total. destruct p as [[l [[|t]|]]|]; cbn; destruct (size img); reflexivity.
  - intros t ls. apply percent_sorted.
Qed.

Lemma progress_percent_bounded_witness :
  (0 < progress_total car (bytes 250000 1000000))%N /\
  progress_total {| name := "x"; size := 0 |} None = 0%N /\
  Sorted N.le [250000%N; 500000%N; 1000000%N] /\
  message (httpUploadProgress car (bytes 250000 1000000) (after uploading))
    = "Uploading... 25%" /\
  message (httpUploadProgress {| name := "x"; size := 0 |} None (after uploading))
    = "Uploading..." /\
  Sorted Z.le (map (fun l => percent l 1000000) [250000%N; 500000%N; 1000000%N]).
Proof.
  assert (T : (0 < progress_total car (bytes 250000 1000000))%N) by (vm_compute; reflexivity).
  assert (Z0 : progress_total {| name := "x"; size := 0 |} None = 0%N) by reflexivity.
  assert (S : Sorted N.le [250000%N; 500000%N; 1000000%N]).
  { repeat constructor; vm_compute; discriminate. }
  split; [exact T|]. split; [exact Z0|]. split; [exact S|].
  destruct (progress_percent_bounded car (bytes 250000 1000000) (after uploading))
    as (A & _ & _ & D).
  destruct (progress_percent_bounded {| name := "x"; size := 0 |} None (after uploading))
    as (_ & B & _).
  split; [|split].
  - rewrite (proj1 (A T)). vm_compute. reflexivity.
  - exact (B Z0).
  - exact (D 1000000%N _ S).
Defined.

(** C6, as stated, fails: [round(min(1, 29/200) * 100)] is [round(14.5)],
    that is 15, while the component computes on Numbers, where
    [(29 / 200) * 100] is [14.499999999999998], and publishes 14.  Rounding
    ties to even does not save the formula: at 1/200, exactly 0.5 percent, it
    gives 0 and the component publishes 1. *)
Lemma progress_percent_is_not_exact :
  (Qmin 1 (29 / 200) * 100 == 29 # 2)%Q /\
  exact_percent 29 200 = 15%Z /\
  percent 29 200 = 14%Z /\
  message (httpUploadProgress van (bytes 29 200) (after uploading)) = "Uploading... 14%" /\
  (Qmin 1 (1 / 200) * 100 == 1 # 2)%Q /\
  round_half_even (1 # 2) = 0%Z /\
  percent 1 200 = 1%Z /\
  message (httpUploadProgress van (bytes 1 200) (after uploading)) = "Uploading... 1%".
Proof. repeat split; vm_compute; reflexivity. Qed.

(** C6, amended.  With a positive total of at most [2^44] bytes the
    published percentage is [round(min(1, loaded/total) * 100)] whenever that
    value does not lie half-way between two integers; where it does, the
    arithmetic on Numbers decides between the rounded value and the integer
    below it.  For a file of 1 000 000 bytes the counts 250000, 500000 and
    1000000 give "Uploading... 25%", "Uploading... 50%" and
    "Uploading... 100%". *)
Theorem progress_percent_is_near_exact (img : File) (p : option Progress) (s : State) :
  ((0 < progress_total img p <= 17592186044416)%N ->
   let l := progress_loaded p in
   let t := progress_total img p in
   message (httpUploadProgress img p s)
     = "Uploading... " ++ Number_toString (of_Z (percent l t)) ++ "%" /\
   (exact_percent l t - 1 <= percent l t <= exact_percent l t)%Z /\
   (half_way l t = false ->
    percent l t = exact_percent l t /\
    message (httpUploadProgress img p s)
      = "Uploading... " ++ Number_toString (of_Z (exact_percent l t)) ++ "%")) /\
  message (httpUploadProgress car (bytes 250000 1000000) s) = "Uploading... 25%" /\
  message (httpUploadProgress car (bytes 500000 1000000) s) = "Uploading... 50%" /\
  message (httpUploadProgress car (bytes 1000000 1000000) s) = "Uploading... 100%".
Proof.
  split; [|split; [|split]]; [|vm_compute; reflexivity..].
  intros H l t. destruct (percent_against_exact l t H) as [B E].
  assert (M : message (httpUploadProgress img p s)
              = "Uploading... " ++ Number_toString (of_Z (percent l t)) ++ "%").
  { unfold httpUploadProgress, l, t. destruct H as [H _].
    apply N.ltb_lt in H. rewrite H. reflexivity. }
  split; [exact M|]. split; [exact B|].
  intros T. split; [exact (E T)|]. rewrite <- (E T). exact M.
Qed.

Lemma progress_percent_is_near_exact_witness :
  (0 < progress_total van (bytes 1 3) <= 17592186044416)%N /\
  half_way 1 3 = false /\
  exact_percent 1 3 = 33%Z /\
  message (httpUploadProgress van (bytes 1 3) (after uploading)) = "Uploading... 33%" /\
  (0 < progress_total van (bytes 29 200) <= 17592186044416)%N /\
  half_way 29 200 = true /\
  exact_percent 29 200 = 15%Z /\
  (14 <= percent 29 200 <= 15)%Z.
Proof.
  assert (T1 : (0 < progress_total van (bytes 1 3) <= 17592186044416)%N)
    by (split; vm_compute; [reflexivity|discriminate]).
  assert (T2 : (0 < progress_total van (bytes 29 200) <= 17592186044416)%N)
    by (split; vm_compute; [reflexivity|discriminate]).
  assert (H1 : half_way 1 3 = false) by (vm_compute; reflexivity).
  assert (H2 : half_way 29 200 = true) by (vm_compute; reflexivity).
  assert (E1 : exact_percent 1 3 = 33%Z) by (vm_compute; reflexivity).
  assert (E2 : exact_percent 29 200 = 15%Z) by (vm_compute; reflexivity).
  destruct (progress_percent_is_near_exact van (bytes 1 3) (after uploading)) as [A _].
  destruct (A T1) as (_ & _ & A3). destruct (A3 H1) as [_ A4].
  destruct (progress_percent_is_near_exact van (bytes 29 200) (after uploading)) as [B _].
  destruct (B T2) as (_ & B2 & _).
  change (progress_loaded (bytes 1 3)) with 1%N in A4.
  change (progress_total van (bytes 1 3)) with 3%N in A4.
  change (progress_loaded (bytes 29 200)) with 29%N in B2.
  change (progress_total van (bytes 29 200)) with 200%N in B2.
  rewrite E1 in A4. rewrite E2 in B2.
  split; [exact T1|]. split; [exact H1|]. split; [exact E1|].
  split; [rewrite A4; vm_compute; reflexivity|].
  split; [exact T2|]. split; [exact H2|]. split; [exact E2|exact B2].
Defined.

(** ** Sending *)

(** C7.  When the upload of a session is done while the socket is not open
    (or the closure holds no socket), the send is refused: the phase is
    Failed with reason ChannelNotReady, no frame is handed to the socket, no
    timer is started, and at no later time has that session sent a frame or
    started a timer. *)
Theorem send_requires_open_socket (s : State) (u : UploadId) (x : Upload) :
  reachable s -> find_upload u s = Some x ->
  upload_ws x = None \/ readyState s <> OPEN ->
  exists s', step s (UploadDone u) = Some s' /\
    phase s' = Failed ChannelNotReady /\
    outbox s' = outbox s /\
    timers s' = timers s /\
    nextTimer s' = nextTimer s /\
    responseTimeoutRef s' = responseTimeoutRef s /\
    find_upload u s' = None /\
    forall evs s'', run s' evs = Some s'' ->
      (forall m, In m (outbox s'') -> sent_by m <> u) /\
      (forall t, In t (timers s'') -> timer_owner t <> u).
Proof.
  intros R F Hnot. apply reachable_wf in R.
  pose proof (over_removed u x s R F) as O.
  pose proof (find_upload_removed u s) as Gone.
  assert (Later : forall m evs s'',
            run (setMessage m (setMessage "Upload is done" (remove_upload u s))) evs = Some s'' ->
            (forall y, In y (outbox s'') -> sent_by y <> u) /\
            (forall t, In t (timers s'') -> timer_owner t <> u)).
  { intros m evs s'' H. eapply over_run in H; [|exact O].
    destruct H as (_ & _ & Hm & Ht). split; assumption. }
  cbn [step]. rewrite F. cbn. unfold sendMessage.
  destruct (upload_ws x) as [w|].
  - destruct Hnot as [Hw|Hr]; [discriminate|]. cbn.
    destruct (readyState s); try contradiction;
      (eexists; split; [reflexivity|]; do 5 (split; [reflexivity|]);
       split; [exact Gone|apply Later]).
  - eexists; split; [reflexivity|]; do 5 (split; [reflexivity|]).
    split; [exact Gone|apply Later].
Qed.

Lemma send_requires_open_socket_witness :
  reachable (after offline) /\
  readyState (after offline) <> OPEN /\
  exists s', step (after offline) (UploadDone 0) = Some s' /\
    phase s' = Failed ChannelNotReady /\
    outbox s' = [] /\
    timers s' = [] /\
    forall s'', run s' [SocketOpen; Elapse 20000] = Some s'' ->
      (forall m, In m (outbox s'') -> sent_by m <> 0) /\
      (forall t, In t (timers s'') -> timer_owner t <> 0).
Proof.
  assert (R : reachable (after offline))
    by (apply reachable_after; vm_compute; discriminate).
  assert (N : readyState (after offline) <> OPEN) by (vm_compute; discriminate).
  split; [exact R|]. split; [exact N|].
  destruct (send_requires_open_socket (after offline) 0
              {| upload_id := 0; upload_image := car;
                 upload_ws := Some {| url := webSocketUrl env0 |} |}
              R eq_refl (or_intror N))
    as (s' & E & P & Ob & Ts & _ & _ & _ & L).
  exists s'. split; [exact E|]. split; [exact P|].
  split; [rewrite Ob; vm_compute; reflexivity|].
  split; [rewrite Ts; vm_compute; reflexivity|].
  intros s'' H. exact (L _ s'' H).
Defined.

(** ** Failed uploads *)

(** C9.  When the upload of a session fails, the status line becomes
    "Upload is failed" (phase Failed, reason UploadFailed), nothing is handed
    to the socket, and at no later time is a frame of that session in the
    outbox. *)
Theorem upload_failure_sends_nothing (s : State) (u : UploadId) (x : Upload) :
  reachable s -> find_upload u s = Some x ->
  exists s', step s (UploadError u) = Some s' /\
    message s' = "Upload is failed" /\
    phase s' = Failed UploadFailed /\
    outbox s' = outbox s /\
    timers s' = timers s /\
    find_upload u s' = None /\
    (forall m, In m (outbox s') -> sent_by m <> u) /\
    forall evs s'', run s' evs = Some s'' ->
      forall m, In m (outbox s'') -> sent_by m <> u.
Proof.
  intros R F. apply reachable_wf in R.
  pose proof (over_removed u x s R F) as O.
  exists (setMessage "Upload is failed" (remove_upload u s)).
  cbn [step]. rewrite F. cbn.
  do 5 (split; [reflexivity|]). split; [apply (find_upload_removed u s)|]. split.
  - apply O.
  - intros evs s'' H. eapply over_run in H; [|exact O]. apply H.
Qed.

Lemma upload_failure_sends_nothing_witness :
  reachable (after uploading) /\
  exists s', step (after uploading) (UploadError 0) = Some s' /\
    message s' = "Upload is failed" /\
    outbox s' = [] /\
    forall s'', run s' [Elapse 20000; SocketClose] = Some s'' ->
      forall m, In m (outbox s'') -> sent_by m <> 0.
Proof.
  assert (R : reachable (after uploading))
    by (apply reachable_after; vm_compute; discriminate).
  split; [exact R|].
  destruct (upload_failure_sends_nothing (after uploading) 0
              {| upload_id := 0; upload_image := car;
                 upload_ws := Some {| url := webSocketUrl env0 |} |}
              R eq_refl)
    as (s' & E & M & _ & Ob & _ & _ & _ & L).
  exists s'. split; [exact E|]. split; [exact M|].
  split; [rewrite Ob; vm_compute; reflexivity|].
  intros s'' H. exact (L _ s'' H).
Defined.

(** ** Selection without a file *)

(** C10.  A selection event without a file, its list absent or empty, is one
    step of the event loop that leaves the whole state as it is: preview,
    status line, result, timers and uploads. *)
Theorem selection_without_file_changes_nothing (s : State) :
  first_file None = None /\
  first_file (Some []) = None /\
  processImage_begin None s = s /\
  processImage_begin (Some []) s = s /\
  step s (FileSelected None) = Some s /\
  step s (FileSelected (Some [])) = Some s.
Proof. repeat split. Qed.

End Claims.

(** * Further properties of the component *)

(** ** The notification is well-formed JSON *)

Section Quote.
Import Float64 JS App.
Local Open Scope string_scope.

(** After a [\u] escape of a code unit that is no high surrogate the next
    characters are parsed on their own. *)
Lemma parse_chars_escape (c : ascii) (r : string) (e : string) :
  quote_chars (String c EmptyString) = e ->
  parse_chars (e ++ r) = prepend (String c EmptyString) (parse_chars r).
Proof.
  intros <-.
  destruct c as [b0 b1 b2 b3 b4 b5 b6 b7].
  destruct b7, b6, b5; try (destruct b0, b1, b2, b3, b4; reflexivity).
  (* control characters *)
  destruct b0, b1, b2, b3, b4; try reflexivity;
    cbn; destruct r as [|x1 [|x2 [|x3 [|x4 [|x5 [|x6 r]]]]]]; try reflexivity;
    cbn; destruct (hex4 x3 x4 x5 x6); reflexivity.
Qed.

Lemma append_assoc3 (a b c : string) : (a ++ b) ++ c = a ++ (b ++ c).
Proof. induction a as [|x a IH]; simpl; [reflexivity|rewrite IH; reflexivity]. Qed.

Lemma append_empty_r (a : string) : a ++ "" = a.
Proof. induction a as [|x a IH]; simpl; [reflexivity|rewrite IH; reflexivity]. Qed.

Lemma quote_chars_cons (c : ascii) (s : string) :
  quote_chars (String c s) = quote_chars (String c EmptyString) ++ quote_chars s.
Proof. cbn [quote_chars]. rewrite append_empty_r. reflexivity. Qed.

(** Reading back what [JSON.stringify] wrote for a string. *)
Lemma parse_chars_quote_chars (s rest : string) :
  parse_chars (quote_chars s ++ String dquote rest) = Some (s, rest).
Proof.
  induction s as [|c s IH].
  - reflexivity.
  - rewrite quote_chars_cons, append_assoc3.
    rewrite (parse_chars_escape c _ _ eq_refl). rewrite IH. reflexivity.
Qed.

Lemma JSON_quote_app (s rest : string) :
  JSON_quote s ++ rest = String dquote (quote_chars s ++ String dquote rest).
Proof. unfold JSON_quote. cbn [append]. rewrite append_assoc3. reflexivity. Qed.


(** Tests on literal characters are decided by evaluation. *)
Ltac decide_chars :=
  repeat match goal with
  | |- context [is_ws ?c] =>
      let v := eval vm_compute in (is_ws c) in change (is_ws c) with v
  | |- context [Ascii.eqb ?c ?d] =>
      let v := eval vm_compute in (Ascii.eqb c d) in change (Ascii.eqb c d) with v
  end; cbv iota.

Lemma value_body_string (pe : ElementsParser) (pm : MembersParser) (s rest : string) :
  value_body pe pm (JSON_quote s ++ rest) = Some (JStr s, rest).
Proof.
  rewrite JSON_quote_app. unfold value_body. cbn [skip_ws]. unfold dquote. decide_chars.
  change (String "034" (quote_chars s ++ String "034" rest))
    with (String dquote (quote_chars s ++ String dquote rest)).
  rewrite parse_chars_quote_chars. reflexivity.
Qed.

Lemma value_body_object (pe : ElementsParser) (pm : MembersParser) (key rest : string) :
  value_body pe pm (String "{" (JSON_quote key ++ rest))
  = match pm (JSON_quote key ++ rest) with
    | Some (ps, r) => Some (JObj ps, r)
    | None => None
    end.
Proof.
  unfold value_body. cbn [skip_ws]. decide_chars.
  rewrite JSON_quote_app. cbn [skip_ws]. unfold dquote. decide_chars. reflexivity.
Qed.

Lemma members_body_more (pv : ValueParser) (pm : MembersParser) (key rest : string)
    (v : JSValue) (rest' : string) :
  pv rest = Some (v, String "," rest') ->
  members_body pv pm (JSON_quote key ++ String ":" rest)
  = match pm rest' with
    | Some (ps, r) => Some ((key, v) :: ps, r)
    | None => None
    end.
Proof.
  intros Hv. rewrite JSON_quote_app. unfold members_body. cbn [skip_ws].
  unfold dquote. decide_chars.
  change (String "034" (quote_chars key ++ String "034" (String ":" rest)))
    with (String dquote (quote_chars key ++ String dquote (String ":" rest))).
  rewrite parse_chars_quote_chars. cbn [skip_ws]. decide_chars.
  rewrite Hv. cbn [skip_ws]. decide_chars. reflexivity.
Qed.

Lemma members_body_last (pv : ValueParser) (pm : MembersParser) (key rest : string)
    (v : JSValue) (rest' : string) :
  pv rest = Some (v, String "}" rest') ->
  members_body pv pm (JSON_quote key ++ String ":" rest) = Some ([(key, v)], rest').
Proof.
  intros Hv. rewrite JSON_quote_app. unfold members_body. cbn [skip_ws].
  unfold dquote. decide_chars.
  change (String "034" (quote_chars key ++ String "034" (String ":" rest)))
    with (String dquote (quote_chars key ++ String dquote (String ":" rest))).
  rewrite parse_chars_quote_chars. cbn [skip_ws]. decide_chars.
  rewrite Hv. cbn [skip_ws]. decide_chars. reflexivity.
Qed.

Lemma payload_shape (bucket key : string) :
  payload bucket key
  = String "{" (JSON_quote "action" ++ String ":" (JSON_quote "sendVehicleInfo" ++
      String "," (JSON_quote "message" ++ String ":" (String "{"
        (JSON_quote "bucket" ++ String ":" (JSON_quote bucket ++
           String "," (JSON_quote "key" ++ String ":" (JSON_quote key ++ "}}")))))))).
Proof. reflexivity. Qed.

Lemma parse_value_string (f : nat) (s rest : string) :
  parse_value (S f) (JSON_quote s ++ rest) = Some (JStr s, rest).
Proof. cbn [parse_value]. apply value_body_string. Qed.

Lemma parse_value_object (f : nat) (key rest : string) :
  parse_value (S f) (String "{" (JSON_quote key ++ rest))
  = match parse_members f (JSON_quote key ++ rest) with
    | Some (ps, r) => Some (JObj ps, r)
    | None => None
    end.
Proof. cbn [parse_value]. apply value_body_object. Qed.

Lemma parse_members_more (f : nat) (key rest : string) (v : JSValue) (rest' : string) :
  parse_value f rest = Some (v, String "," rest') ->
  parse_members (S f) (JSON_quote key ++ String ":" rest)
  = match parse_members f rest' with
    | Some (ps, r) => Some ((key, v) :: ps, r)
    | None => None
    end.
Proof. intros H. cbn [parse_members]. apply members_body_more. exact H. Qed.

Lemma parse_members_last (f : nat) (key rest : string) (v : JSValue) (rest' : string) :
  parse_value f rest = Some (v, String "}" rest') ->
  parse_members (S f) (JSON_quote key ++ String ":" rest) = Some ([(key, v)], rest').
Proof. intros H. cbn [parse_members]. apply members_body_last. exact H. Qed.

Lemma payload_parses (bucket key : string) (k : nat) :
  parse_value (7 + k) (payload bucket key)
  = Some (JObj [("action", JStr "sendVehicleInfo");
                ("message", JObj [("bucket", JStr bucket); ("key", JStr key)])],
          EmptyString).
Proof.
  rewrite payload_shape. cbn [Nat.add].
  rewrite parse_value_object.
  rewrite (parse_members_more _ "action" _ (JStr "sendVehicleInfo") _
             (parse_value_string _ _ _)).
  erewrite parse_members_last; [reflexivity|].
  rewrite parse_value_object.
  rewrite (parse_members_more _ "bucket" _ (JStr bucket) _ (parse_value_string _ _ _)).
  erewrite parse_members_last; [reflexivity|].
  apply parse_value_string.
Qed.

Lemma payload_length (bucket key : string) : 3 <= String.length (payload bucket key).
Proof. unfold payload. simpl. lia. Qed.

(** The notification is JSON that reads back as its bucket and key. *)
Lemma JSON_parse_payload (bucket key : string) :
  JSON_parse (payload bucket key)
  = Some (JObj [("action", JStr "sendVehicleInfo");
                ("message", JObj [("bucket", JStr bucket); ("key", JStr key)])]).
Proof.
  unfold JSON_parse. pose proof (payload_length bucket key) as L.
  replace (2 * String.length (payload bucket key) + 2)
    with (7 + (2 * String.length (payload bucket key) - 5)) by lia.
  rewrite payload_parses. reflexivity.
Qed.

End Quote.

(** ** More invariants of the event loop *)

Section MoreInvariants.
Import Float64 JS App Scenario Lifecycle.
Local Open Scope string_scope.

(** *** The indicator *)

Lemma indicator_init (e : Env) : indicator_ok (init e).
Proof.
  unfold indicator_ok; cbn.
  split; [discriminate|]. split; [discriminate|]. split; [reflexivity|left; reflexivity].
Qed.

Lemma indicator_ws_onmessage (data : string) (s : State) :
  indicator_ok s -> indicator_ok (ws_onmessage data s).
Proof.
  intros W.
  assert (W1 : indicator_ok (clear_response_timeout s)).
  { unfold clear_response_timeout. destruct (responseTimeoutRef s); exact W. }
  destruct (ws_onmessage_cases data s) as [E|[E|[t E]]]; rewrite E; exact W1.
Qed.

Lemma indicator_sendMessage (w : option WebSocket) (u : UploadId) (key : string) (s : State) :
  indicator_ok s -> indicator_ok (sendMessage w u key s).
Proof.
  intros W. unfold sendMessage. destruct w; [destruct (readyState s)|]; exact W.
Qed.

Lemma indicator_step (s s' : State) (e : Event) :
  indicator_ok s -> step s e = Some s' -> indicator_ok s'.
Proof.
  intros W H. destruct e as [| |files|v p|v|v| | | | |j|]; cbn [step] in H.
  - destruct (ws s) eqn:Ws; inversion H; subst. destruct W as (_ & _ & N & _).
    specialize (N Ws). unfold indicator_ok; cbn. rewrite N.
    split; [discriminate|]. split; [discriminate|]. split; [discriminate|left; reflexivity].
  - destruct (forallb _ _); inversion H; subst. exact W.
  - inversion H; subst. unfold processImage_begin. destruct (first_file files); exact W.
  - destruct (find_upload v s); inversion H; subst.
    unfold httpUploadProgress. destruct (_ <? _)%N; exact W.
  - destruct (find_upload v s) as [x|]; inversion H; subst.
    cbn. apply indicator_sendMessage. exact W.
  - destruct (find_upload v s) as [x|]; inversion H; subst. exact W.
  - destruct (ws s) eqn:Ws; [destruct (readyState s)|]; inversion H; subst.
    unfold indicator_ok; cbn. rewrite Ws.
    split; [reflexivity|]. split; [left; reflexivity|].
    split; [discriminate|right; left; reflexivity].
  - destruct (ws s); [destruct (readyState s)|]; inversion H; subst.
    apply indicator_ws_onmessage, W.
  - destruct (ws s) eqn:Ws; inversion H; subst. unfold indicator_ok; cbn. rewrite Ws.
    split; [discriminate|]. split; [discriminate|].
    split; [discriminate|right; right; reflexivity].
  - destruct (ws s) eqn:Ws; inversion H; subst. unfold indicator_ok; cbn. rewrite Ws.
    split; [discriminate|]. split; [discriminate|]. split; [discriminate|left; reflexivity].
  - destruct (pending j s) as [t|]; [|discriminate].
    destruct (_ <=? _)%N; inversion H; subst. exact W.
  - destruct (ws s) eqn:Ws; [destruct (readyState s) eqn:Rs|]; inversion H; subst.
    destruct W as (G & _ & _ & C). unfold indicator_ok; cbn. rewrite Ws.
    split; [discriminate|]. split; [right; reflexivity|]. split; [discriminate|exact C].
Qed.

Lemma reachable_indicator (s : State) : reachable s -> indicator_ok s.
Proof.
  intros (e & evs & H).
  assert (G : forall evs s0, indicator_ok s0 -> run s0 evs = Some s -> indicator_ok s).
  { clear. induction evs as [|e evs IH]; simpl; intros s0 W H.
    - inversion H; subst; exact W.
    - destruct (step s0 e) as [s1|] eqn:E; [|discriminate].
      apply (IH s1); [apply (indicator_step s0 s1 e W E)|exact H]. }
  apply (G evs (init e)); [apply indicator_init|exact H].
Qed.

(** *** A socket that is closing or closed *)

Lemma closed_ws_onmessage_frame (data : string) (s : State) :
  outbox (ws_onmessage data s) = outbox s /\
  nextTimer (ws_onmessage data s) = nextTimer s /\
  incl (timers (ws_onmessage data s)) (timers s).
Proof.
  assert (W1 : outbox (clear_response_timeout s) = outbox s /\
               nextTimer (clear_response_timeout s) = nextTimer s /\
               incl (timers (clear_response_timeout s)) (timers s)).
  { unfold clear_response_timeout. destruct (responseTimeoutRef s); cbn.
    - split; [reflexivity|]. split; [reflexivity|]. apply incl_filter.
    - split; [reflexivity|]. split; [reflexivity|]. apply incl_refl. }
  destruct (ws_onmessage_cases data s) as [E|[E|[t E]]]; rewrite E; exact W1.
Qed.

Lemma closed_step (s s' : State) (e : Event) :
  closed s -> step s e = Some s' ->
  closed s' /\ outbox s' = outbox s /\ nextTimer s' = nextTimer s /\
  incl (timers s') (timers s).
Proof.
  intros [Hw Hr] H.
  assert (K : forall x : State, ws x = ws s -> readyState x = readyState s ->
              outbox x = outbox s -> nextTimer x = nextTimer s -> timers x = timers s ->
              closed x /\ outbox x = outbox s /\ nextTimer x = nextTimer s /\
              incl (timers x) (timers s)).
  { intros x E1 E2 E3 E4 E5. unfold closed. rewrite E1, E2, E5.
    repeat split; auto. apply incl_refl. }
  destruct e as [| |files|v p|v|v| | | | |j|]; cbn [step] in H.
  - destruct (ws s); [discriminate|contradiction].
  - destruct (forallb _ _); inversion H; subst. apply K; reflexivity.
  - inversion H; subst. unfold processImage_begin.
    destruct (first_file files); apply K; reflexivity.
  - destruct (find_upload v s); inversion H; subst.
    unfold httpUploadProgress. destruct (_ <? _)%N; apply K; reflexivity.
  - destruct (find_upload v s) as [x|]; inversion H; subst. cbn. unfold sendMessage.
    destruct (upload_ws x); [|apply K; reflexivity]. cbn.
    destruct Hr as [Hr|Hr]; rewrite Hr; apply K; cbn; congruence.
  - destruct (find_upload v s) as [x|]; inversion H; subst. apply K; reflexivity.
  - destruct (ws s); [|discriminate].
    destruct Hr as [Hr|Hr]; rewrite Hr in H; discriminate.
  - destruct (ws s); [|discriminate].
    destruct Hr as [Hr|Hr]; rewrite Hr in H; discriminate.
  - destruct (ws s) eqn:Ws; inversion H; subst. unfold closed; cbn. rewrite Ws.
    repeat split; auto; try discriminate. apply incl_refl.
  - destruct (ws s) eqn:Ws; inversion H; subst. unfold closed; cbn. rewrite Ws.
    repeat split; auto; try discriminate. apply incl_refl.
  - destruct (pending j s) as [t|]; [|discriminate].
    destruct (_ <=? _)%N; inversion H; subst. unfold closed; cbn.
    repeat split; auto. apply incl_filter.
  - destruct (ws s); [|discriminate].
    destruct Hr as [Hr|Hr]; rewrite Hr in H; discriminate.
Qed.

Lemma closed_run (evs : list Event) (s s' : State) :
  closed s -> run s evs = Some s' ->
  closed s' /\ outbox s' = outbox s /\ nextTimer s' = nextTimer s /\
  incl (timers s') (timers s).
Proof.
  revert s. induction evs as [|e evs IH]; simpl; intros s W H.
  - inversion H; subst.
    split; [exact W|]. split; [reflexivity|]. split; [reflexivity|apply incl_refl].
  - destruct (step s e) as [s1|] eqn:E; [|discriminate].
    destruct (closed_step s s1 e W E) as (W1 & O1 & N1 & T1).
    destruct (IH s1 W1 H) as (W2 & O2 & N2 & T2).
    split; [exact W2|]. split; [congruence|]. split; [congruence|].
    eapply incl_tran; eassumption.
Qed.


(** *** Sessions and frames *)

Lemma filter_found_shorter {A : Type} (p : A -> bool) (l : list A) (x : A) :
  find p l = Some x -> List.length (filter (fun y => negb (p y)) l) < List.length l.
Proof.
  induction l as [|a l IH]; simpl; [discriminate|].
  destruct (p a) eqn:Pa; simpl.
  - intros _. pose proof (filter_length_le (fun y => negb (p y)) l). lia.
  - intros H. apply IH in H. lia.
Qed.

Lemma accounted_same (sel : list File) (s x : State) :
  uploads x = uploads s -> outbox x = outbox s -> env x = env s ->
  nextUpload x = nextUpload s ->
  accounted sel s -> accounted (sel ++ []) x /\ env x = env s.
Proof.
  intros E1 E2 E3 E4 A. rewrite app_nil_r. unfold accounted.
  rewrite E1, E2, E3, E4. split; [exact A|reflexivity].
Qed.

Lemma accounted_ws_onmessage (sel : list File) (data : string) (s : State) :
  accounted sel s -> accounted (sel ++ []) (ws_onmessage data s) /\
  env (ws_onmessage data s) = env s.
Proof.
  intros A.
  assert (W1 : accounted (sel ++ []) (clear_response_timeout s) /\
               env (clear_response_timeout s) = env s).
  { unfold clear_response_timeout.
    destruct (responseTimeoutRef s); apply accounted_same; auto. }
  destruct (ws_onmessage_cases data s) as [E|[E|[t E]]]; rewrite E; exact W1.
Qed.

Lemma accounted_step (sel : list File) (s s' : State) (e : Event) :
  accounted sel s -> step s e = Some s' ->
  accounted (sel ++ selected_by e) s' /\ env s' = env s.
Proof.
  intros A H. destruct e as [| |files|v p|v|v| | | | |j|]; cbn [step] in H; cbn [selected_by].
  - destruct (ws s); inversion H; subst. apply accounted_same; auto.
  - destruct (forallb _ _); inversion H; subst. apply accounted_same; auto.
  - inversion H; subst. unfold processImage_begin.
    destruct (first_file files) as [f|]; [|apply accounted_same; auto].
    destruct A as (A1 & A2 & A3 & A4). split; [|reflexivity].
    unfold accounted; cbn. split; [|split; [|split]].
    + intros x Hx. apply in_or_app. apply in_app_or in Hx.
      destruct Hx as [Hx|[Hx|[]]]; [left; auto|right; subst x; left; reflexivity].
    + intros m Hm. destruct (A2 m Hm) as (g & Hg & Hf).
      exists g. split; [apply in_or_app; left; exact Hg|exact Hf].
    + rewrite !length_app. cbn. lia.
    + rewrite length_app. cbn. lia.
  - destruct (find_upload v s); inversion H; subst.
    unfold httpUploadProgress. destruct (_ <? _)%N; apply accounted_same; auto.
  - destruct (find_upload v s) as [x|] eqn:F; inversion H; subst.
    pose proof (filter_found_shorter _ _ _ F) as L.
    apply find_upload_In in F. destruct F as [Fin Fid].
    destruct A as (A1 & A2 & A3 & A4). rewrite app_nil_r. split.
    2:{ cbn. unfold sendMessage. destruct (upload_ws x); [destruct (readyState _)|]; reflexivity. }
    assert (B : accounted sel (setMessage "Upload is done" (remove_upload v s))).
    { unfold accounted; cbn. split; [|split; [|split]]; auto.
      - intros y Hy. apply filter_In in Hy. apply A1. tauto.
      - lia. }
    cbn. unfold sendMessage.
    destruct (upload_ws x); [destruct (readyState _)|]; try exact B.
    destruct B as (B1 & B2 & B3 & B4). unfold accounted; cbn. cbn in B1, B2, B3, B4.
    split; [exact B1|]. split; [|split; [|exact B4]].
    + intros m Hm. apply in_app_or in Hm. destruct Hm as [Hm|[Hm|[]]].
      * apply B2, Hm.
      * subst m. cbn. exists (upload_image x). split; [apply A1, Fin|reflexivity].
    + rewrite length_app. cbn. lia.
  - destruct (find_upload v s) as [x|] eqn:F; inversion H; subst.
    pose proof (filter_found_shorter _ _ _ F) as L.
    destruct A as (A1 & A2 & A3 & A4). rewrite app_nil_r. split; [|reflexivity].
    unfold accounted; cbn. split; [|split; [|split]]; auto.
    + intros y Hy. apply filter_In in Hy. apply A1. tauto.
    + lia.
  - destruct (ws s); [destruct (readyState s)|]; inversion H; subst.
    apply accounted_same; auto.
  - destruct (ws s); [destruct (readyState s)|]; inversion H; subst.
    apply accounted_ws_onmessage, A.
  - destruct (ws s); inversion H; subst. apply accounted_same; auto.
  - destruct (ws s); inversion H; subst. apply accounted_same; auto.
  - destruct (pending j s) as [t|]; [|discriminate].
    destruct (_ <=? _)%N; inversion H; subst. apply accounted_same; auto.
  - destruct (ws s); [destruct (readyState s)|]; inversion H; subst.
    apply accounted_same; auto.
Qed.

Lemma accounted_run (evs : list Event) (sel : list File) (s s' : State) :
  accounted sel s -> run s evs = Some s' ->
  accounted (sel ++ selected evs) s' /\ env s' = env s.
Proof.
  revert sel s. induction evs as [|e evs IH]; simpl; intros sel s A H.
  - inversion H; subst. rewrite app_nil_r. split; [exact A|reflexivity].
  - destruct (step s e) as [s1|] eqn:E; [|discriminate].
    destruct (accounted_step sel s s1 e A E) as [A1 E1].
    destruct (IH _ s1 A1 H) as [A2 E2].
    rewrite <- app_assoc in A2. split; [exact A2|congruence].
Qed.

Lemma accounted_init (e : Env) : accounted [] (init e).
Proof.
  unfold accounted; cbn. repeat split; try contradiction; lia.
Qed.

(** *** Timers follow sends *)

Lemma wait_ws_onmessage (data : string) (s : State) :
  wait_follows_send s -> wait_follows_send (ws_onmessage data s).
Proof.
  intros [W1 W2].
  assert (C : forall x : State,
            outbox x = outbox s -> incl (timers x) (timers s) ->
            responseTimeoutRef x = None ->
            message x = message s \/ message x = "Completed" ->
            wait_follows_send x).
  { intros x E1 E2 E3 E4. split.
    - intros t Ht. rewrite E1. apply W1, E2, Ht.
    - rewrite E1. intros O. destruct (W2 O) as (_ & M1 & M2). split; [exact E3|].
      destruct E4 as [E4|E4]; rewrite E4; split; auto; discriminate. }
  pose proof (clear_response_timeout_ref s) as R.
  assert (T : incl (timers (clear_response_timeout s)) (timers s)).
  { unfold clear_response_timeout. destruct (responseTimeoutRef s); cbn;
      [apply incl_filter|apply incl_refl]. }
  assert (O : outbox (clear_response_timeout s) = outbox s).
  { unfold clear_response_timeout. destruct (responseTimeoutRef s); reflexivity. }
  assert (M : message (clear_response_timeout s) = message s).
  { unfold clear_response_timeout. destruct (responseTimeoutRef s); reflexivity. }
  destruct (ws_onmessage_cases data s) as [E|[E|[t E]]]; rewrite E; apply C; cbn; auto.
Qed.

Lemma wait_step (s s' : State) (e : Event) :
  wait_follows_send s -> step s e = Some s' -> wait_follows_send s'.
Proof.
  intros W H. pose proof W as [W1 W2].
  assert (K : forall (x : State) (m : string),
            outbox x = outbox s -> timers x = timers s ->
            responseTimeoutRef x = responseTimeoutRef s ->
            message x = m ->
            (m = message s \/ (m <> "Processing image...." /\
               m <> "No response from server yet. Check backend logs.")) ->
            wait_follows_send x).
  { intros x m E1 E2 E3 E4 E5. split.
    - rewrite E1, E2. exact W1.
    - rewrite E1, E3, E4. intros O. destruct (W2 O) as (R & M1 & M2).
      split; [exact R|]. destruct E5 as [E5|E5]; [rewrite E5; auto|exact E5]. }
  destruct e as [| |files|v p|v|v| | | | |j|]; cbn [step] in H.
  - destruct (ws s); inversion H; subst. exact W.
  - destruct (forallb _ _); inversion H; subst. exact W.
  - inversion H; subst. unfold processImage_begin.
    destruct (first_file files); [|exact W].
    eapply K; try reflexivity. right. split; discriminate.
  - destruct (find_upload v s); inversion H; subst.
    unfold httpUploadProgress. destruct (_ <? _)%N;
      (eapply K; [reflexivity..|right; split; cbn; discriminate]).
  - destruct (find_upload v s) as [x|]; inversion H; subst. cbn. unfold sendMessage.
    destruct (upload_ws x); [destruct (readyState _)|];
      try (eapply K; [reflexivity..|right; split; discriminate]).
    split; cbn.
    + intros t Ht. apply in_app_or in Ht. destruct Ht as [Ht|[Ht|[]]].
      * destruct (W1 t Ht) as (m & Hm & Em). exists m. split; [apply in_or_app; auto|exact Em].
      * subst t. cbn. eexists. split; [apply in_or_app; right; left; reflexivity|reflexivity].
    + intros O. destruct (outbox s); discriminate.
  - destruct (find_upload v s) as [x|]; inversion H; subst.
    eapply K; [reflexivity..|right; split; discriminate].
  - destruct (ws s); [destruct (readyState s)|]; inversion H; subst. exact W.
  - destruct (ws s); [destruct (readyState s)|]; inversion H; subst.
    apply wait_ws_onmessage, W.
  - destruct (ws s); inversion H; subst.
    eapply K; [reflexivity..|right; split; discriminate].
  - destruct (ws s); inversion H; subst. exact W.
  - destruct (pending j s) as [t|] eqn:P; [|discriminate].
    destruct (_ <=? _)%N; inversion H; subst.
    unfold pending in P. apply find_some in P. destruct P as [P _].
    destruct (W1 t P) as (m & Hm & _). split; cbn.
    + intros t' Ht'. apply filter_In in Ht'. apply W1. tauto.
    + intros O. rewrite O in Hm. destruct Hm.
  - destruct (ws s); [destruct (readyState s)|]; inversion H; subst. exact W.
Qed.

Lemma wait_init (e : Env) : wait_follows_send (init e).
Proof.
  split; cbn; [intros t []|]. intros _. repeat split; discriminate.
Qed.

Lemma reachable_wait (s : State) : reachable s -> wait_follows_send s.
Proof.
  intros (e & evs & H).
  assert (G : forall evs s0, wait_follows_send s0 -> run s0 evs = Some s ->
              wait_follows_send s).
  { clear. induction evs as [|e evs IH]; simpl; intros s0 W H.
    - inversion H; subst; exact W.
    - destruct (step s0 e) as [s1|] eqn:E; [|discriminate].
      apply (IH s1); [apply (wait_step s0 s1 e W E)|exact H]. }
  apply (G evs (init e)); [apply wait_init|exact H].
Qed.

End MoreInvariants.

(** * Properties beyond the claims *)

Section Extras.
Import Float64 JS App Scenario Lifecycle.
Local Open Scope string_scope.

(** ** The notification *)

(** X1.  The frame that [sendMessage] builds is JSON for every bucket and
    every file name, whatever characters they hold, and reads back as the
    action [sendVehicleInfo] with exactly that bucket and key. *)
Theorem notification_reads_back (bucket key : string) :
  JSON_parse (payload bucket key)
  = Some (JObj [("action", JStr "sendVehicleInfo");
                ("message", JObj [("bucket", JStr bucket); ("key", JStr key)])]).
Proof. apply JSON_parse_payload. Qed.

(** X2.  In every run from the initial state, each frame handed to the
    socket is the notification for the configured bucket and the name of a
    file that was selected in the run, and there are no more frames than
    selected files. *)
Theorem sent_frames_are_notifications (e : Env) (evs : list Event) (s : State) :
  run (init e) evs = Some s ->
  List.length (outbox s) <= List.length (selected evs) /\
  forall m, In m (outbox s) ->
    exists f, In f (selected evs) /\
      frame m = payload (bucketName e) (name f) /\
      JSON_parse (frame m)
      = Some (JObj [("action", JStr "sendVehicleInfo");
                    ("message", JObj [("bucket", JStr (bucketName e));
                                      ("key", JStr (name f))])]).
Proof.
  intros H. destruct (accounted_run evs [] (init e) s (accounted_init e) H) as [A E].
  destruct A as (_ & A2 & A3 & _). cbn [app] in A2, A3. split; [lia|].
  intros m Hm. destruct (A2 m Hm) as (f & Hf & Ef). rewrite E in Ef. cbn in Ef.
  exists f. split; [exact Hf|]. split; [exact Ef|]. rewrite Ef. apply JSON_parse_payload.
Qed.

Lemma sent_frames_are_notifications_witness :
  run (init env0) awaiting <> None /\
  List.length (outbox (after awaiting)) <= 1 /\
  forall m, In m (outbox (after awaiting)) ->
    exists f, In f [car] /\ frame m = payload "b" (name f).
Proof.
  split; [vm_compute; discriminate|].
  destruct (sent_frames_are_notifications env0 awaiting (after awaiting)) as [L F].
  - vm_compute. reflexivity.
  - split; [exact L|]. intros m Hm. destruct (F m Hm) as (f & Hf & Ef & _).
    exists f. split; [exact Hf|exact Ef].
Defined.

(** X3.  Before the first notification has been sent no timer is pending,
    the reference is empty, and neither "Processing image...." nor the
    timeout text is on the status line. *)
Theorem wait_needs_a_notification (s : State) :
  reachable s -> outbox s = [] ->
  timers s = [] /\
  responseTimeoutRef s = None /\
  message s <> "Processing image...." /\
  message s <> "No response from server yet. Check backend logs.".
Proof.
  intros R O. destruct (reachable_wait s R) as [W1 W2]. split; [|apply W2, O].
  destruct (timers s) as [|t ts] eqn:T; [reflexivity|].
  destruct (W1 t (or_introl eq_refl)) as (m & Hm & _). rewrite O in Hm. destruct Hm.
Qed.

Lemma wait_needs_a_notification_witness :
  reachable (after uploading) /\ outbox (after uploading) = [] /\
  timers (after uploading) = [] /\
  message (after uploading) <> "Processing image....".
Proof.
  assert (R : reachable (after uploading))
    by (apply reachable_after; vm_compute; discriminate).
  assert (O : outbox (after uploading) = []) by (vm_compute; reflexivity).
  destruct (wait_needs_a_notification (after uploading) R O) as (T & _ & M & _).
  auto.
Defined.

(** ** The indicator *)

(** X4.  In every reachable state the indicator is grey, green or red.  An
    open socket shows green, and green means that the socket is open or
    closing: the colour is written by the open, error and close handlers
    only, so when the closing handshake of an open socket starts the
    indicator stays green although the socket is no longer open. *)
Theorem indicator_follows_socket_events (s : State) :
  reachable s ->
  (readyState s = OPEN -> socketStatusColour s = "green") /\
  (socketStatusColour s = "green" -> readyState s = OPEN \/ readyState s = CLOSING) /\
  (socketStatusColour s = "grey" \/ socketStatusColour s = "green"
   \/ socketStatusColour s = "red") /\
  (readyState s = OPEN ->
   exists s', step s SocketClosing = Some s' /\
     socketStatusColour s' = "green" /\ readyState s' = CLOSING).
Proof.
  intros R. destruct (reachable_indicator s R) as (O & G & N & C).
  split; [exact O|]. split; [exact G|]. split; [exact C|].
  intros Ho. cbn [step]. rewrite Ho.
  destruct (ws s) as [w|] eqn:Ws.
  - eexists. split; [reflexivity|]. split; [exact (O Ho)|reflexivity].
  - specialize (N eq_refl). rewrite (O Ho) in N. discriminate.
Qed.

Lemma indicator_follows_socket_events_witness :
  reachable (after uploading) /\ readyState (after uploading) = OPEN /\
  reachable (after closing) /\
  socketStatusColour (after closing) = "green" /\
  readyState (after closing) = CLOSING /\
  step (after uploading) SocketClosing = Some (after closing).
Proof.
  assert (R : reachable (after uploading))
    by (apply reachable_after; vm_compute; discriminate).
  assert (R' : reachable (after closing))
    by (apply reachable_after; vm_compute; discriminate).
  assert (O : readyState (after uploading) = OPEN) by (vm_compute; reflexivity).
  assert (C : socketStatusColour (after closing) = "green") by (vm_compute; reflexivity).
  assert (E : step (after uploading) SocketClosing = Some (after closing))
    by (vm_compute; reflexivity).
  destruct (indicator_follows_socket_events (after uploading) R) as (_ & _ & _ & K).
  destruct (K O) as (s' & E' & _ & Rs). rewrite E in E'. inversion E'; subst s'.
  destruct (indicator_follows_socket_events (after closing) R') as (_ & G & _).
  split; [exact R|]. split; [exact O|]. split; [exact R'|]. split; [exact C|].
  split; [exact Rs|exact E].
Defined.

(** X5.  When the upload of a session whose closure holds the socket is
    done, a notification goes out only while the indicator is green: with any
    other colour the send is refused and nothing is handed to the socket.
    Green is not enough: a green indicator over a socket that is not open
    means that the socket is closing, and the send is refused as well. *)
Theorem notification_needs_green (s : State) (u : UploadId) (x : Upload) (w : WebSocket) :
  reachable s -> find_upload u s = Some x -> upload_ws x = Some w ->
  exists s', step s (UploadDone u) = Some s' /\
    (socketStatusColour s <> "green" ->
     outbox s' = outbox s /\ timers s' = timers s /\
     message s' = "WebSocket not ready yet. Please try again in a moment") /\
    (outbox s' <> outbox s ->
     socketStatusColour s = "green" /\ readyState s = OPEN /\
     outbox s' = (outbox s ++ [{| sent_by := u;
                    frame := payload (bucketName (env s)) (name (upload_image x)) |}])%list /\
     message s' = "Processing image....") /\
    (socketStatusColour s = "green" -> readyState s <> OPEN ->
     readyState s = CLOSING /\ outbox s' = outbox s /\ timers s' = timers s /\
     message s' = "WebSocket not ready yet. Please try again in a moment").
Proof.
  intros R F Hw. destruct (reachable_indicator s R) as (O & G & _).
  pose proof (find_upload_In u s x F) as [_ Fid].
  cbn [step]. rewrite F. cbn. unfold sendMessage. rewrite Hw. cbn.
  destruct (readyState s) eqn:Rs; eexists; (split; [reflexivity|]); cbn.
  - split; [auto|]. split; [intros D; exfalso; apply D; reflexivity|].
    intros C _. destruct (G C); discriminate.
  - split; [intros C; exfalso; apply C, O; reflexivity|]. split.
    + intros _. rewrite Fid. auto.
    + intros _ D. exfalso. apply D. reflexivity.
  - split; [auto|]. split; [intros D; exfalso; apply D; reflexivity|]. auto.
  - split; [auto|]. split; [intros D; exfalso; apply D; reflexivity|].
    intros C _. destruct (G C); discriminate.
Qed.

Lemma notification_needs_green_witness :
  reachable (after closing) /\
  socketStatusColour (after closing) = "green" /\
  readyState (after closing) <> OPEN /\
  exists s', step (after closing) (UploadDone 0) = Some s' /\
    outbox s' = [] /\
    message s' = "WebSocket not ready yet. Please try again in a moment".
Proof.
  assert (R : reachable (after closing))
    by (apply reachable_after; vm_compute; discriminate).
  assert (C : socketStatusColour (after closing) = "green") by (vm_compute; reflexivity).
  assert (N : readyState (after closing) <> OPEN) by (vm_compute; discriminate).
  split; [exact R|]. split; [exact C|]. split; [exact N|].
  destruct (notification_needs_green (after closing) 0
              {| upload_id := 0; upload_image := car;
                 upload_ws := Some {| url := webSocketUrl env0 |} |}
              {| url := webSocketUrl env0 |} R eq_refl eq_refl) as (s' & E & _ & _ & Y).
  destruct (Y C N) as (_ & Ob & _ & M).
  exists s'. split; [exact E|]. split; [rewrite Ob; vm_compute; reflexivity|exact M].
Defined.

(** ** Inbound frames, whatever they hold *)

Lemma clear_response_timeout_idle (s : State) :
  responseTimeoutRef s = None -> clear_response_timeout s = s.
Proof. intros H. unfold clear_response_timeout. rewrite H. reflexivity. Qed.

(** X6.  Handling a frame a second time changes nothing: a frame delivered
    twice leaves the state it left the first time. *)
Theorem frame_twice_is_once (data : string) (s : State) :
  ws_onmessage data (ws_onmessage data s) = ws_onmessage data s.
Proof.
  pose proof (clear_response_timeout_ref s) as R.
  unfold ws_onmessage at 1 3.
  destruct (JSON_parse data) as [d|] eqn:P;
    [destruct (Get d "message") as [m|] eqn:G; [destruct (template_value m) as [t|] eqn:T|]|];
    unfold ws_onmessage; rewrite P; try rewrite G; try rewrite T;
    rewrite clear_response_timeout_idle by exact R;
    destruct (clear_response_timeout s); reflexivity.
Qed.

(** X7.  No frame, well-formed or not, makes the handler fail or report a
    failure: the status line is left as it is or becomes "Completed", the
    result is left as it is or becomes a "Number plate: " text, the reference
    is emptied, no timer is added, and the preview, the indicator, the
    uploads in flight and the frames sent are untouched. *)
Theorem frame_never_fails (data : string) (s : State) :
  let s' := ws_onmessage data s in
  (message s' = message s \/ message s' = "Completed") /\
  (numberPlate s' = numberPlate s \/ exists t, numberPlate s' = "Number plate: " ++ t) /\
  responseTimeoutRef s' = None /\
  incl (timers s') (timers s) /\
  image s' = image s /\
  socketStatusColour s' = socketStatusColour s /\
  uploads s' = uploads s /\
  outbox s' = outbox s.
Proof.
  intros s'. pose proof (clear_response_timeout_ref s) as R.
  assert (C : message (clear_response_timeout s) = message s /\
              numberPlate (clear_response_timeout s) = numberPlate s /\
              incl (timers (clear_response_timeout s)) (timers s) /\
              image (clear_response_timeout s) = image s /\
              socketStatusColour (clear_response_timeout s) = socketStatusColour s /\
              uploads (clear_response_timeout s) = uploads s /\
              outbox (clear_response_timeout s) = outbox s).
  { unfold clear_response_timeout. destruct (responseTimeoutRef s); cbn;
      repeat split; try reflexivity; [apply incl_filter|apply incl_refl]. }
  destruct C as (C1 & C2 & C3 & C4 & C5 & C6 & C7).
  subst s'. unfold ws_onmessage.
  destruct (JSON_parse data) as [d|]; [destruct (Get d "message") as [m|];
    [destruct (template_value m) as [t|]|]|]; cbn.
  - split; [auto|]. split; [right; exists t; reflexivity|auto 10].
  - auto 10.
  - auto 10.
  - auto 10.
Qed.

(** X8.  A frame whose [message] is an object with a property named
    [toString] cannot be converted to text: the status line says "Completed"
    while the result stays the one shown before. *)
Theorem unprintable_result_keeps_old_plate (s : State) (data : string) (v : JSValue)
    (props : list (string * JSValue)) :
  JSON_parse data = Some v ->
  Get v "message" = Normal (Some (JObj props)) ->
  own_property "toString" props <> None ->
  message (ws_onmessage data s) = "Completed" /\
  numberPlate (ws_onmessage data s) = numberPlate s.
Proof.
  intros P G O. unfold ws_onmessage. rewrite P, G. cbn.
  destruct (own_property "toString" props); [|contradiction].
  unfold clear_response_timeout. destruct (responseTimeoutRef s); split; reflexivity.
Qed.

Lemma unprintable_result_keeps_old_plate_witness :
  JSON_parse (lit "{'message':{'toString':1}}")
  = Some (JObj [("message", JObj [("toString", JNum (of_Z 1))])]) /\
  message (ws_onmessage (lit "{'message':{'toString':1}}") (after awaiting)) = "Completed" /\
  numberPlate (ws_onmessage (lit "{'message':{'toString':1}}") (after awaiting))
  = "Number plate: .....".
Proof.
  assert (J : JSON_parse (lit "{'message':{'toString':1}}")
              = Some (JObj [("message", JObj [("toString", JNum (of_Z 1))])]))
    by (vm_compute; reflexivity).
  split; [exact J|].
  destruct (unprintable_result_keeps_old_plate (after awaiting) _ _
              [("toString", JNum (of_Z 1))] J eq_refl) as [M N].
  - vm_compute. discriminate.
  - split; [exact M|]. rewrite N. vm_compute. reflexivity.
Defined.

(** ** The ends of the progress scale *)

(** X9.  Once the byte count has reached the total, the status line is
    "Uploading... 100%", also when the count overshoots the total. *)
Theorem progress_full_is_100 (img : File) (p : option Progress) (s : State) :
  (0 < progress_total img p)%N -> (progress_total img p <= progress_loaded p)%N ->
  message (httpUploadProgress img p s) = "Uploading... 100%".
Proof.
  intros Ht Hl. unfold httpUploadProgress. apply N.ltb_lt in Ht as Hb. rewrite Hb.
  rewrite (percent_full _ _ Ht Hl). vm_compute. reflexivity.
Qed.

Lemma progress_full_is_100_witness :
  (0 < progress_total car (bytes 1200000 1000000))%N /\
  (progress_total car (bytes 1200000 1000000) <= progress_loaded (bytes 1200000 1000000))%N /\
  message (httpUploadProgress car (bytes 1200000 1000000) (after uploading))
  = "Uploading... 100%".
Proof.
  assert (A : (0 < progress_total car (bytes 1200000 1000000))%N) by (vm_compute; reflexivity).
  assert (B : (progress_total car (bytes 1200000 1000000)
               <= progress_loaded (bytes 1200000 1000000))%N) by (vm_compute; discriminate).
  split; [exact A|]. split; [exact B|].
  apply (progress_full_is_100 car (bytes 1200000 1000000) (after uploading) A B).
Defined.

(** X10.  A progress event without a byte count, or with a count of zero,
    shows "Uploading... 0%" as long as a total is known. *)
Theorem progress_without_count_is_0 (img : File) (p : option Progress) (s : State) :
  (0 < progress_total img p)%N -> progress_loaded p = 0%N ->
  message (httpUploadProgress img p s) = "Uploading... 0%".
Proof.
  intros Ht Hl. unfold httpUploadProgress. apply N.ltb_lt in Ht. rewrite Ht, Hl.
  rewrite percent_none. vm_compute. reflexivity.
Qed.

Lemma progress_without_count_is_0_witness :
  (0 < progress_total car (Some {| loaded := None; total := None |}))%N /\
  progress_loaded (Some {| loaded := None; total := None |}) = 0%N /\
  message (httpUploadProgress car (Some {| loaded := None; total := None |})
             (after uploading))
  = "Uploading... 0%".
Proof.
  assert (A : (0 < progress_total car (Some {| loaded := None; total := None |}))%N)
    by (vm_compute; reflexivity).
  split; [exact A|]. split; [reflexivity|].
  apply (progress_without_count_is_0 car _ (after uploading) A eq_refl).
Defined.

(** ** A socket that is gone *)

(** X11.  There is no reconnect: once the socket is closing or closed it
    stays so, and from then on no frame is handed to it and no timer is
    started, whatever uploads complete later. *)
Theorem closed_socket_sends_nothing (s s' : State) (evs : list Event) :
  ws s <> None -> readyState s = CLOSING \/ readyState s = CLOSED ->
  run s evs = Some s' ->
  (readyState s' = CLOSING \/ readyState s' = CLOSED) /\
  outbox s' = outbox s /\
  nextTimer s' = nextTimer s /\
  incl (timers s') (timers s).
Proof.
  intros Hw Hr H. destruct (closed_run evs s s' (conj Hw Hr) H) as ([_ C] & O & N & T).
  auto.
Qed.

Lemma closed_socket_sends_nothing_witness :
  ws (after (uploading ++ [SocketClose])) <> None /\
  readyState (after (uploading ++ [SocketClose])) = CLOSED /\
  exists s', run (after (uploading ++ [SocketClose])) [UploadDone 0] = Some s' /\
    outbox s' = [] /\ timers s' = [].
Proof.
  assert (W : ws (after (uploading ++ [SocketClose])) <> None) by (vm_compute; discriminate).
  assert (C : readyState (after (uploading ++ [SocketClose])) = CLOSED)
    by (vm_compute; reflexivity).
  split; [exact W|]. split; [exact C|].
  destruct (run (after (uploading ++ [SocketClose])) [UploadDone 0]) as [s'|] eqn:E;
    [|vm_compute in E; discriminate].
  exists s'. split; [reflexivity|].
  destruct (closed_socket_sends_nothing _ s' _ W (or_intror C) E) as (_ & O & _ & T).
  split.
  - rewrite O. vm_compute. reflexivity.
  - destruct (timers s') as [|t ts]; [reflexivity|].
    exfalso. apply (T t (or_introl eq_refl)).
Defined.

(** X12.  The cleanup of the first effect cancels the timer held in
    [responseTimeoutRef] and no other, leaves the cells of the component as
    they are (the reference keeps its identifier), and closes the socket for
    good: afterwards no frame is sent and no timer is started. *)
Theorem cleanup_cancels_and_closes (s : State) :
  let c := effect_cleanup s in
  image c = image s /\ message c = message s /\ numberPlate c = numberPlate s /\
  socketStatusColour c = socketStatusColour s /\
  responseTimeoutRef c = responseTimeoutRef s /\
  (forall id, responseTimeoutRef s = Some id -> pending id c = None) /\
  (forall t, In t (timers s) -> responseTimeoutRef s <> Some (timer_id t) ->
     In t (timers c)) /\
  readyState c <> OPEN /\ readyState c <> CONNECTING /\
  (ws s <> None -> forall evs s', run c evs = Some s' ->
     outbox s' = outbox s /\ nextTimer s' = nextTimer s).
Proof.
  intros c. subst c. unfold effect_cleanup, ws_close.
  destruct (responseTimeoutRef s) as [id|] eqn:Ref.
  - assert (K : forall t, In t (timers s) -> Some id <> Some (timer_id t) ->
                In t (timers (clearTimeout id s))).
    { intros t Ht Hne. cbn. apply filter_In. split; [exact Ht|].
      apply negb_true_iff, Pos.eqb_neq. congruence. }
    cbn [readyState clearTimeout set_timers].
    destruct (readyState s) eqn:R; cbn; rewrite ?R, ?Ref;
      (do 5 (split; [reflexivity|]); split;
       [intros i Hi; inversion Hi; subst; exact (pending_clearTimeout i s)|];
       split; [exact K|]; split; [discriminate|]; split; [discriminate|];
       intros Hw evs s' H;
       eapply closed_run in H;
       [destruct H as (_ & O & N & _); split; [exact O|exact N]
       |split; [exact Hw|cbn; rewrite ?R; auto]]).
  - destruct (readyState s) eqn:R; cbn; rewrite ?R, ?Ref;
      (do 5 (split; [reflexivity|]); split; [discriminate|];
       split; [auto|]; split; [discriminate|]; split; [discriminate|];
       intros Hw evs s' H;
       eapply closed_run in H;
       [destruct H as (_ & O & N & _); split; [exact O|exact N]
       |split; [exact Hw|cbn; rewrite ?R; auto]]).
Qed.

Lemma cleanup_cancels_and_closes_witness :
  ws (after awaiting) <> None /\
  responseTimeoutRef (after awaiting) = Some 1%positive /\
  pending 1%positive (effect_cleanup (after awaiting)) = None /\
  exists s', run (effect_cleanup (after awaiting)) [FileSelected (Some [van]); UploadDone 1]
             = Some s' /\
    List.length (outbox s') = 1.
Proof.
  assert (W : ws (after awaiting) <> None) by (vm_compute; discriminate).
  assert (R : responseTimeoutRef (after awaiting) = Some 1%positive)
    by (vm_compute; reflexivity).
  destruct (cleanup_cancels_and_closes (after awaiting))
    as (_ & _ & _ & _ & _ & P & _ & _ & _ & L).
  split; [exact W|]. split; [exact R|]. split; [exact (P _ R)|].
  destruct (run (effect_cleanup (after awaiting)) [FileSelected (Some [van]); UploadDone 1])
    as [s'|] eqn:E; [|vm_compute in E; discriminate].
  exists s'. split; [reflexivity|].
  destruct (L W _ s' E) as [O _]. rewrite O. vm_compute. reflexivity.
Defined.

(** ** One request at a time *)

Lemma last_in {A : Type} (l : list A) (d : A) : l <> [] -> In (last l d) l.
Proof.
  induction l as [|a l IH]; [contradiction|]. intros _.
  destruct l as [|b l]; [left; reflexivity|].
  right. apply IH. discriminate.
Qed.

(** X13.  As long as a single file has been selected, any frame that
    arrives leaves no timer pending: with one request in flight a reply
    always cancels the timeout. *)
Theorem single_session_frame_clears_all (e : Env) (evs : list Event) (s : State)
    (data : string) :
  run (init e) evs = Some s -> List.length (selected evs) <= 1 ->
  timers (ws_onmessage data s) = [].
Proof.
  intros H One.
  assert (R : reachable s) by (exists e, evs; exact H).
  pose proof (reachable_wf s R) as (Wt & _ & Wo & _).
  pose proof (reachable_tracked s R) as T.
  pose proof (reachable_wait s R) as [Ws _].
  destruct (accounted_run evs [] (init e) s (accounted_init e) H) as [(_ & _ & _ & A4) _].
  cbn [app] in A4.
  assert (E : timers (ws_onmessage data s) = timers (clear_response_timeout s)).
  { destruct (ws_onmessage_cases data s) as [E|[E|[t E]]]; rewrite E; reflexivity. }
  rewrite E. destruct (timers (clear_response_timeout s)) as [|t ts] eqn:Ts; [reflexivity|].
  exfalso.
  assert (Hin : In t (timers (clear_response_timeout s))) by (rewrite Ts; left; reflexivity).
  pose proof (tracked_clear_response_timeout s T t Hin) as Hne.
  assert (Hs : In t (timers s)).
  { unfold clear_response_timeout in Hin. destruct (responseTimeoutRef s); [|exact Hin].
    cbn in Hin. apply filter_In in Hin. tauto. }
  destruct (Wt t Hs) as [_ Lt].
  destruct (Ws t Hs) as (m & Hm & _).
  apply Hne. unfold current_session.
  assert (Hl : In (last (map (fun m => Some (sent_by m)) (outbox s)) None)
                  (map (fun m => Some (sent_by m)) (outbox s))).
  { apply last_in. destruct (outbox s); [destruct Hm|discriminate]. }
  apply in_map_iff in Hl. destruct Hl as (m' & Em & Hm').
  rewrite <- Em. f_equal. apply Wo in Hm'. lia.
Qed.

Lemma single_session_frame_clears_all_witness :
  run (init env0) awaiting <> None /\
  List.length (selected awaiting) <= 1 /\
  timers (after awaiting) <> [] /\
  timers (ws_onmessage "oops" (after awaiting)) = [].
Proof.
  split; [vm_compute; discriminate|].
  assert (L : List.length (selected awaiting) <= 1) by (vm_compute; lia).
  split; [exact L|]. split; [vm_compute; discriminate|].
  apply (single_session_frame_clears_all env0 awaiting (after awaiting) "oops");
    [vm_compute; reflexivity|exact L].
Defined.

(** ** The preview *)

Lemma last_default_unused {A : Type} (b : A) (l : list A) (d1 d2 : A) :
  last (b :: l) d1 = last (b :: l) d2.
Proof.
  revert b. induction l as [|c l IH]; intros b; [reflexivity|].
  change (last (c :: l) d1 = last (c :: l) d2). apply IH.
Qed.

Lemma last_cons_default {A : Type} (a d : A) (l : list A) : last (a :: l) d = last l a.
Proof.
  destruct l as [|b l]; [reflexivity|].
  change (last (b :: l) d = last (b :: l) a). apply last_default_unused.
Qed.

Lemma image_ws_onmessage (data : string) (s : State) :
  image (ws_onmessage data s) = image s.
Proof.
  assert (C : image (clear_response_timeout s) = image s).
  { unfold clear_response_timeout. destruct (responseTimeoutRef s); reflexivity. }
  destruct (ws_onmessage_cases data s) as [E|[E|[t E]]]; rewrite E; exact C.
Qed.

Lemma image_step (s s' : State) (e : Event) :
  step s e = Some s' -> image s' = last (map Some (selected_by e)) (image s).
Proof.
  intros H. destruct e as [| |files|v p|v|v| | | | |j|]; cbn [step] in H; cbn [selected_by].
  - destruct (ws s); inversion H; subst. reflexivity.
  - destruct (forallb _ _); inversion H; subst. reflexivity.
  - inversion H; subst. unfold processImage_begin.
    destruct (first_file files); reflexivity.
  - destruct (find_upload v s); inversion H; subst.
    unfold httpUploadProgress. destruct (_ <? _)%N; reflexivity.
  - destruct (find_upload v s) as [x|]; inversion H; subst. cbn. unfold sendMessage.
    destruct (upload_ws x); [destruct (readyState _)|]; reflexivity.
  - destruct (find_upload v s) as [x|]; inversion H; subst. reflexivity.
  - destruct (ws s); [destruct (readyState s)|]; inversion H; subst. reflexivity.
  - destruct (ws s); [destruct (readyState s)|]; inversion H; subst.
    apply image_ws_onmessage.
  - destruct (ws s); inversion H; subst. reflexivity.
  - destruct (ws s); inversion H; subst. reflexivity.
  - destruct (pending j s) as [t|]; [|discriminate].
    destruct (_ <=? _)%N; inversion H; subst. reflexivity.
  - destruct (ws s); [destruct (readyState s)|]; inversion H; subst. reflexivity.
Qed.

Lemma image_run (evs : list Event) (s s' : State) :
  run s evs = Some s' -> image s' = last (map Some (selected evs)) (image s).
Proof.
  revert s. induction evs as [|e evs IH]; simpl; intros s H.
  - inversion H; subst. reflexivity.
  - destruct (step s e) as [s1|] eqn:E; [|discriminate].
    rewrite (IH s1 H). rewrite (image_step s s1 e E). rewrite map_app.
    destruct (selected_by e) as [|f l] eqn:S; [reflexivity|].
    assert (L : l = []).
    { destruct e; cbn in S; try discriminate.
      destruct (first_file files); inversion S; reflexivity. }
    subst l. cbn [map app]. rewrite !last_cons_default. reflexivity.
Qed.

(** X14.  The preview is the file selected last: no event other than a
    selection changes it, and it is empty exactly until the first file is
    selected. *)
Theorem preview_is_last_selected (e : Env) (evs : list Event) (s : State) :
  run (init e) evs = Some s ->
  image s = last (map Some (selected evs)) None /\
  (image s = None <-> selected evs = []).
Proof.
  intros H. pose proof (image_run evs (init e) s H) as E. cbn in E.
  split; [exact E|]. rewrite E. split.
  - intros N. destruct (selected evs) as [|f l] eqn:S; [reflexivity|exfalso].
    assert (I : In (last (map Some (f :: l)) None) (map Some (f :: l)))
      by (apply last_in; discriminate).
    rewrite N in I. apply in_map_iff in I. destruct I as (x & Hx & _). discriminate.
  - intros ->. reflexivity.
Qed.

Lemma preview_is_last_selected_witness :
  run (init env0) superseded <> None /\
  image (after superseded) = Some van.
Proof.
  split; [vm_compute; discriminate|].
  destruct (preview_is_last_selected env0 superseded (after superseded)) as [E _].
  - vm_compute. reflexivity.
  - rewrite E. vm_compute. reflexivity.
Defined.

(** ** An echo *)

(** X15.  If the notification comes back over the socket, the handler takes
    it for a result: its [message] is an object, so the status line becomes
    "Completed" and the result "Number plate: [object Object]", for every
    bucket and file name. *)
Theorem echoed_notification_is_a_result (bucket key : string) (s : State) :
  message (ws_onmessage (payload bucket key) s) = "Completed" /\
  numberPlate (ws_onmessage (payload bucket key) s) = "Number plate: [object Object]" /\
  responseTimeoutRef (ws_onmessage (payload bucket key) s) = None.
Proof.
  unfold ws_onmessage. rewrite JSON_parse_payload. cbn.
  split; [reflexivity|]. split; [reflexivity|]. apply (clear_response_timeout_ref s).
Qed.

End Extras.
